(** * The Dash application dispatcher (dataviz_server/dispatcher.py)

A shallow embedding of [Dispatcher]: the WSGI callable that picks an
application from the first path segment, keeps built applications in
[self.instances] and forgets them after a retention period.

Python [str] values are [string]; the characters are processed as
[list ascii].  [dict]s are [gmap]s.  [datetime] values are integers
(microseconds), [timedelta]s are their differences. *)

From Stdlib Require Import ZArith Ascii String List.
From stdpp Require Import gmap strings list fin_maps.

Local Open Scope string_scope.

(** ** Python string primitives used by the dispatcher and by werkzeug *)

Module PyStr.

Definition chars (s : string) : list ascii := list_ascii_of_string s.
Definition of_chars (l : list ascii) : string := string_of_list_ascii l.

Definition slash : ascii := "/"%char.

(** [str.lstrip(c)] for a one-character argument. *)
Fixpoint lstrip_chars (c : ascii) (l : list ascii) : list ascii :=
  match l with
  | a :: l' => if Ascii.eqb a c then lstrip_chars c l' else l
  | [] => []
  end.

Definition lstrip (c : ascii) (s : string) : string :=
  of_chars (lstrip_chars c (chars s)).

(** [str.split(sep, maxsplit)] for a one-character separator: cut at the
    first [maxsplit] separators, from the left. *)
Fixpoint split_chars (sep : ascii) (maxsplit : nat) (l : list ascii)
  : list (list ascii) :=
  match l with
  | [] => [[]]
  | a :: l' =>
      match maxsplit with
      | O => [l]
      | S m =>
          if Ascii.eqb a sep then [] :: split_chars sep m l'
          else match split_chars sep maxsplit l' with
               | piece :: rest => (a :: piece) :: rest
               | [] => [[a]]
               end
      end
  end.

Definition split (sep : ascii) (maxsplit : nat) (s : string) : list string :=
  of_chars <$> split_chars sep maxsplit (chars s).

(** [str.rsplit(sep, maxsplit)]: the same cut, counted from the right. *)
Definition rsplit_chars (sep : ascii) (maxsplit : nat) (l : list ascii)
  : list (list ascii) :=
  rev (rev (A:=ascii) <$> split_chars sep maxsplit (rev l)).

Definition rsplit (sep : ascii) (maxsplit : nat) (s : string) : list string :=
  of_chars <$> rsplit_chars sep maxsplit (chars s).

(** [c in s] *)
Definition contains (c : ascii) (s : string) : bool :=
  existsb (Ascii.eqb c) (chars s).

(** [c * n] *)
Definition repeat_char (c : ascii) (n : nat) : string :=
  of_chars (repeat c n).

(** number of occurrences of [c], [s.count(c)] *)
Fixpoint count_chars (c : ascii) (l : list ascii) : nat :=
  match l with
  | [] => 0
  | a :: l' => (if Ascii.eqb a c then 1 else 0) + count_chars c l'
  end.

Definition count (c : ascii) (s : string) : nat := count_chars c (chars s).

(** [sep.join(pieces)] for a one-character separator *)
Definition join_chars (sep : ascii) (pieces : list (list ascii)) : list ascii :=
  match pieces with
  | [] => []
  | p :: ps => p ++ concat ((λ q, sep :: q) <$> ps)
  end.

Definition join (sep : ascii) (pieces : list string) : string :=
  of_chars (join_chars sep (chars <$> pieces)).

(** [s.endswith(c)] *)
Definition endswith (c : ascii) (s : string) : bool :=
  match rev (chars s) with
  | a :: _ => Ascii.eqb a c
  | [] => false
  end.

(** truthiness of a string *)
Definition truthy (s : string) : bool := negb (String.eqb s "").

End PyStr.


(** ** The werkzeug.wsgi path helpers

[peek_path_info], [pop_path_info] and [get_path_info] of werkzeug, on
the WSGI environ dictionary.  werkzeug decodes what these three return as
UTF-8 with errors='replace'; that decoding is the identity here, which is
exact on ASCII paths.  What [pop_path_info] stores in the environ is not
decoded. *)

Module Wsgi.
Import PyStr.

Abbreviation environ_t := (gmap string string).

Definition get_path_info (environ : environ_t) : string :=
  default "" (environ !! "PATH_INFO").

Definition peek_path_info (environ : environ_t) : option string :=
  let segments := split slash 1 (lstrip slash (default "" (environ !! "PATH_INFO"))) in
  match segments with
  | seg :: _ => Some seg
  | [] => None
  end.

(** Returns the popped segment and the environ as mutated in place. *)
Definition pop_path_info (environ : environ_t) : option string * environ_t :=
  match environ !! "PATH_INFO" with
  | None => (None, environ)
  | Some path =>
      if negb (truthy path) then (None, environ)
      else
        let script_name := default "" (environ !! "SCRIPT_NAME") in
        let old_path := path in
        let path := lstrip slash path in
        let script_name :=
          if negb (String.eqb path old_path)
          then script_name +:+ repeat_char slash (String.length old_path - String.length path)
          else script_name in
        if negb (contains slash path) then
          (Some path,
           <["SCRIPT_NAME" := script_name +:+ path]> (<["PATH_INFO" := ""]> environ))
        else
          match split slash 1 path with
          | [segment; path] =>
              (Some segment,
               <["SCRIPT_NAME" := script_name +:+ segment]>
                 (<["PATH_INFO" := "/" +:+ path]> environ))
          | _ => (None, environ) (* tuple unpacking cannot fail: "/" is in path *)
          end
  end.

End Wsgi.


(** ** Data model *)

(** The Flask server obtained from a deserialized Dash application.  Python
    compares such objects by identity: [h_id] is the identity of the object,
    given at construction; [h_uid] is the name its server configuration was
    built for and [h_definition] the serialized definition it came from. *)
Record handler := Handler {
  h_id : nat;
  h_uid : string;
  h_definition : string
}.

(** A value of [self.instances]: the dict [{'app': ..., 'added': ...}]. *)
Record instance := Instance {
  app : handler;
  added : Z
}.

(** What [get_application] hands to [__call__], and [self.default_app]. *)
Inductive wsgi_app :=
| ApiApp                    (* self.api *)
| DashApp (h : handler)     (* a built application's server *)
| BadRequestApp             (* werkzeug.exceptions.BadRequest() *)
| NotFoundApp.              (* werkzeug.exceptions.NotFound() *)

(** The call [app(environ, start_response)]: which application ran, on which
    environ. *)
Record response := Response {
  served_by : wsgi_app;
  seen_environ : gmap string string
}.

(** A document of the collection, and the outcome of [find_one]. *)
Inductive find_outcome :=
| Found (res : option (gmap string string))   (* None, or the document *)
| FindRaises (err : string).                  (* a PyMongoError *)

(** The records sent to [self.logger], by the statement that sends them. *)
Inductive log_record :=
| InfoSpecialDapp (name : string)   (* info: Get special dapp *)
| InfoNotAllowed                    (* info: not in the allowed name pattern *)
| InfoExpired (name : string)       (* info: Dapp has expired *)
| InfoGotFromDb (name : string)     (* info: Got dapp from db *)
| WarningErr (err : string).        (* warning: the PyMongoError *)

Inductive exn :=
| UnboundLocalError (var : string)
| DeserializeError (uid : string).

Inductive result (A : Type) :=
| Ret (a : A)
| Raise (e : exn).
Arguments Ret {A} a.
Arguments Raise {A} e.

(** What the dispatcher is configured with and what it talks to.  The
    collection and the clock are oracles: the answer to the n-th query, the
    n-th reading of [datetime.utcnow()]. *)
Record externals := Externals {
  name_pattern : string → bool;            (* re.match(name_pattern, name) *)
  retention_period_min : Z;                (* RETENTION_PERIOD_MIN *)
  find_one : nat → string → find_outcome;  (* mongo_collection.find_one({'uid': _}) *)
  utcnow : nat → Z;                        (* datetime.utcnow(), microseconds *)
  deserializable : string → bool           (* dashapp_deserializer succeeds *)
}.

(** The mutable part: [self.instances], the log, and counters of the calls
    made to the outside. *)
Record world := World {
  instances : gmap string instance;
  log : list log_record;
  clock_reads : nat;
  queries : list string;
  builds : nat
}.

Definition initial_world : world :=
  {| instances := ∅; log := []; clock_reads := 0; queries := []; builds := 0 |}.

(** [timedelta(minutes=m)] in microseconds. *)
Definition timedelta_minutes (m : Z) : Z := (m * 60 * 1000000)%Z.

Definition retention_period (x : externals) : Z :=
  timedelta_minutes (retention_period_min x).

(** ** State and exceptions *)

Definition M (A : Type) : Type := world → world * result A.

Definition ret {A} (a : A) : M A := λ w, (w, Ret a).
Definition raise {A} (e : exn) : M A := λ w, (w, Raise e).
Definition bind {A B} (m : M A) (k : A → M B) : M B :=
  λ w, match m w with
       | (w', Ret a) => k a w'
       | (w', Raise e) => (w', Raise e)
       end.

Declare Scope dispatch_scope.
Delimit Scope dispatch_scope with dispatch.
Notation "'let!' x ':=' m 'in' k" := (bind m (λ x, k))
  (at level 10, x name, m at level 100, k at level 200) : dispatch_scope.
Notation "m ';;' k" := (bind m (λ _, k))
  (at level 100, k at level 200, right associativity) : dispatch_scope.
Local Open Scope dispatch_scope.

(** The elementary changes of the world. *)
Definition add_log (r : log_record) (w : world) : world :=
  World (instances w) (log w ++ [r]) (clock_reads w) (queries w) (builds w).
Definition set_instances (m : gmap string instance) (w : world) : world :=
  World m (log w) (clock_reads w) (queries w) (builds w).
Definition tick (w : world) : world :=
  World (instances w) (log w) (S (clock_reads w)) (queries w) (builds w).
Definition add_query (uid : string) (w : world) : world :=
  World (instances w) (log w) (clock_reads w) (queries w ++ [uid]) (builds w).
Definition add_build (w : world) : world :=
  World (instances w) (log w) (clock_reads w) (queries w) (S (builds w)).

Definition logger (r : log_record) : M unit :=
  λ w, (add_log r w, Ret tt).

Definition instances_get (name : string) : M (option instance) :=
  λ w, (w, Ret (instances w !! name)).

Definition instances_set (name : string) (i : instance) : M unit :=
  λ w, (set_instances (<[name := i]> (instances w)) w, Ret tt).

(** [del self.instances[name]]; the key is present wherever the dispatcher
    deletes. *)
Definition instances_del (name : string) : M unit :=
  λ w, (set_instances (delete name (instances w)) w, Ret tt).

Definition datetime_utcnow (x : externals) : M Z :=
  λ w, (tick w, Ret (utcnow x (clock_reads w))).

Definition mongo_find_one (x : externals) (uid : string) : M find_outcome :=
  λ w, (add_query uid w, Ret (find_one x (length (queries w)) uid)).

(** [dashapp_deserializer(blob, **build_dashapp_server_configs(uid)).server]:
    a new object at each call, or the deserializer's exception. *)
Definition dashapp_deserializer (x : externals) (uid blob : string) : M handler :=
  λ w, if deserializable x blob
       then (add_build w, Ret (Handler (builds w) uid blob))
       else (add_build w, Raise (DeserializeError uid)).

(** ** The default allow-pattern

[re.match('^[a-zA-Z0-9_-]+$', name)]: one or more characters of the
class, up to the end of the string; Python's [$] also matches just
before a newline that ends the string. *)

Definition in_class (a : ascii) : bool :=
  let n := nat_of_ascii a in
  ((97 <=? n)%nat && (n <=? 122)%nat)        (* a-z *)
  || ((65 <=? n)%nat && (n <=? 90)%nat)      (* A-Z *)
  || ((48 <=? n)%nat && (n <=? 57)%nat)      (* 0-9 *)
  || (n =? 95)%nat || (n =? 45)%nat.         (* _ and - *)

Fixpoint match_class_plus_end (seen : bool) (l : list ascii) : bool :=
  match l with
  | [] => seen
  | a :: l' =>
      if in_class a then match_class_plus_end true l'
      else seen && (nat_of_ascii a =? 10)%nat && (match l' with [] => true | _ => false end)
  end.

Definition default_name_pattern (name : string) : bool :=
  match_class_plus_end false (PyStr.chars name).

(** ** The Dispatcher *)

Module Dispatcher.
Import PyStr Wsgi.

Definition RETENTION_PERIOD_MIN : Z := 60.

(** [self.default_app] *)
Definition default_app : wsgi_app := NotFoundApp.

Section Methods.
Variable self : externals.

(** [__is_main_page] *)
Definition is_main_page (environ : environ_t) : bool :=
  let path := get_path_info environ in
  let splitted := rsplit slash 2 path in
  (length splitted =? 2)%nat
  || ((length splitted =? 3)%nat && bool_decide (last splitted = Some "")).

(** [__get_app_from_db].  The local [res] is bound by the [try] body
    only; the handler of PyMongoError logs and falls through. *)
Definition get_app_from_db (viz_uid : string) : M (option handler) :=
  let! outcome := mongo_find_one self viz_uid in
  let! res_local :=
    match outcome with
    | Found res => ret (Some res)
    | FindRaises err => logger (WarningErr err) ;; ret None
    end in
  match res_local with
  | None => raise (UnboundLocalError "res")
  | Some res =>
      match res with
      | None => ret None
      | Some doc =>
          if bool_decide (doc = ∅) then ret None
          else match doc !! "dashapp" with
               | None => ret None
               | Some blob =>
                   let! server := dashapp_deserializer self viz_uid blob in
                   ret (Some server)
               end
      end
  end.

(** [get_application] *)
Definition get_application (environ : environ_t) : M (option wsgi_app) :=
  match peek_path_info environ with
  | None => ret None
  | Some name =>
      if negb (truthy name) then ret None
      else if String.eqb name "api" then
        logger (InfoSpecialDapp name) ;; ret (Some ApiApp)
      else if negb (name_pattern self name) then
        logger InfoNotAllowed ;; ret (Some BadRequestApp)
      else
        let! instance := instances_get name in
        let! instance :=
          match instance with
          | Some inst =>
              if is_main_page environ then
                let! now := datetime_utcnow self in
                if (now - added inst >? retention_period self)%Z then
                  logger (InfoExpired name) ;;
                  instances_del name ;;
                  ret None
                else ret (Some inst)
              else ret (Some inst)
          | None => ret None
          end in
        match instance with
        | None =>
            let! app := get_app_from_db name in
            match app with
            | Some server =>   (* a Flask object is truthy *)
                let! now := datetime_utcnow self in
                instances_set name (Instance server now) ;;
                logger (InfoGotFromDb name) ;;
                ret (Some (DashApp server))
            | None => ret None
            end
        | Some inst => ret (Some (DashApp (app inst)))
        end
  end.

(** [__call__] *)
Definition call (environ : environ_t) : M response :=
  let! app := get_application environ in
  match app with
  | Some app => ret (Response app (snd (pop_path_info environ)))
  | None => ret (Response default_app environ)
  end.

(** [get_attr_from_serialized_dashapp(blob, attr)] of dataviz.serializer:
    the decoded attribute, or None where the decoder raises. *)
Variable get_attr_from_serialized_dashapp : string → string → option string.

(** [__get_app_layout_from_db]: the same lookup as [__get_app_from_db], the
    same unbound [res] after a PyMongoError; the application is decoded for
    its layout, not built. *)
Definition get_app_layout_from_db (viz_uid : string) : M (option string) :=
  let! outcome := mongo_find_one self viz_uid in
  let! res_local :=
    match outcome with
    | Found res => ret (Some res)
    | FindRaises err => logger (WarningErr err) ;; ret None
    end in
  match res_local with
  | None => raise (UnboundLocalError "res")
  | Some res =>
      match res with
      | None => ret None
      | Some doc =>
          if bool_decide (doc = ∅) then ret None
          else match doc !! "dashapp" with
               | None => ret None
               | Some blob =>
                   match get_attr_from_serialized_dashapp blob "layout" with
                   | Some layout => ret (Some layout)
                   | None => raise (DeserializeError viz_uid)
                   end
               end
      end
  end.

End Methods.
End Dispatcher.

(** ** Vocabulary of the properties *)

(** The request's first path segment is [name], a non-empty name other than
    the reserved [api] that the allow-pattern accepts. *)
Definition tenant_request (x : externals) (environ : gmap string string)
    (name : string) : Prop :=
  Wsgi.peek_path_info environ = Some name
  ∧ name ≠ "" ∧ name ≠ "api" ∧ name_pattern x name = true.

(** The request path once the tenant segment is removed. *)
Definition path_after_tenant (environ : gmap string string) : string :=
  Wsgi.get_path_info (snd (Wsgi.pop_path_info environ)).

(** The test of [get_application] that discards a cached application: the
    name is cached, the request is for the main page, and at the next clock
    reading the entry is older than the retention period. *)
Definition expires (x : externals) (environ : gmap string string) (w : world)
    (name : string) : bool :=
  match instances w !! name with
  | Some inst =>
      Dispatcher.is_main_page environ
      && (utcnow x (clock_reads w) - added inst >? retention_period x)%Z
  | None => false
  end.

(** The same dispatcher in front of another collection. *)
Definition with_find_one (x : externals) (f : nat → string → find_outcome)
    : externals :=
  Externals (name_pattern x) (retention_period_min x) f (utcnow x) (deserializable x).

(** The states of a dispatcher process: the state [__init__] leaves, and the
    state after each request, whatever the request, the configuration and
    the answers of the outside were, and whether or not it raised. *)
Inductive reachable : world → Prop :=
| reachable_init : reachable initial_world
| reachable_call x environ w :
    reachable w → reachable (fst (Dispatcher.call x environ w)).

(** Concrete dispatchers and requests. *)
Module Sample.

Definition env (path : string) : gmap string string := {[ "PATH_INFO" := path ]}.

Definition demo1_doc : gmap string string :=
  {[ "uid" := "demo1"; "dashapp" := "BLOB" ]}.

Definition store_demo1 : nat → string → find_outcome :=
  λ _ uid, if String.eqb uid "demo1" then Found (Some demo1_doc) else Found None.
Definition store_empty : nat → string → find_outcome := λ _ _, Found None.
Definition store_down : nat → string → find_outcome := λ _ _, FindRaises "ServerSelectionTimeoutError".
Definition store_no_dashapp : nat → string → find_outcome :=
  λ _ uid, Found (Some {[ "uid" := uid ]}).

(** the n-th clock reading is n times [step] minutes *)
Definition clock (step : Z) : nat → Z := λ n, timedelta_minutes (Z.of_nat n * step).

Definition dispatcher (store : nat → string → find_outcome) (step : Z) : externals :=
  Externals default_name_pattern Dispatcher.RETENTION_PERIOD_MIN store (clock step) (λ _, true).

Definition demo1_handler : handler := Handler 0 "demo1" "BLOB".

(** after one request for demo1, built and installed at the first reading *)
Definition w_cached : world :=
  World {[ "demo1" := Instance demo1_handler 0 ]} [InfoGotFromDb "demo1"] 1 ["demo1"] 1.

End Sample.

(** ** Vocabulary of the further properties *)

(** The states of one dispatcher process: one configuration and one outside
    [x] for all its requests. *)
Inductive reachable_with (x : externals) : world → Prop :=
| reachable_with_init : reachable_with x initial_world
| reachable_with_call environ w :
    reachable_with x w → reachable_with x (fst (Dispatcher.call x environ w)).

(** A name the dispatcher resolves through the cache: a non-empty path
    segment other than [api] that the allow-pattern accepts. *)
Definition servable_name (x : externals) (k : string) : Prop :=
  k ≠ "" ∧ k ≠ "api" ∧ PyStr.count PyStr.slash k = 0 ∧ name_pattern x k = true.

(** The path a WSGI application reconstructs: the values of the keys
    SCRIPT_NAME and PATH_INFO as they stand in the environ, one after the
    other. *)
Definition full_path (environ : gmap string string) : string :=
  default "" (environ !! "SCRIPT_NAME") +:+ default "" (environ !! "PATH_INFO").

(** The store holds a document for [k] whose [dashapp] is [blob]. *)
Definition stored_at (x : externals) (q : nat) (k blob : string) : Prop :=
  ∃ doc, find_one x q k = Found (Some doc) ∧ doc !! "dashapp" = Some blob.

(** Where a cached entry comes from: its application was built for the key
    [k], from a [dashapp] the collection returned for [k] at an earlier
    query and the deserializer accepted, and [added] is an earlier reading
    of the clock. *)
Definition entry_provenance (x : externals) (w : world) (k : string)
    (i : instance) : Prop :=
  h_uid (app i) = k
  ∧ (∃ n, n < clock_reads w ∧ added i = utcnow x n)
  ∧ ∃ q, q < length (queries w)
         ∧ stored_at x q k (h_definition (app i))
         ∧ deserializable x (h_definition (app i)) = true.

(** What every request of a process keeps true. *)
Definition process_invariant (x : externals) (w : world) : Prop :=
  (∀ k i, instances w !! k = Some i →
     servable_name x k ∧ entry_provenance x w k i ∧ h_id (app i) < builds w)
  ∧ (∀ k1 k2 i1 i2,
       instances w !! k1 = Some i1 → instances w !! k2 = Some i2 →
       h_id (app i1) = h_id (app i2) → k1 = k2)
  ∧ Forall (servable_name x) (queries w)
  ∧ (builds w ≤ length (queries w))%nat.

(** The world once the expired entry of [name] is discarded, before the
    collection is asked. *)
Definition evicted (name : string) (w : world) : world :=
  set_instances (delete name (instances w)) (add_log (InfoExpired name) (tick w)).

(** The world in which [get_application] turns to the collection. *)
Definition before_fetch (x : externals) (environ : gmap string string)
    (w : world) (name : string) : world :=
  if expires x environ w name then evicted name w else w.

(** The world once [server] is fetched, built and installed from [w]. *)
Definition installed (x : externals) (name : string) (server : handler)
    (w : world) : world :=
  add_log (InfoGotFromDb name)
    (set_instances (<[name := Instance server (utcnow x (clock_reads w))]> (instances w))
       (tick (add_build (add_query name w)))).

(** * Properties *)

Local Open Scope list_scope.

(** ** Evaluations of the path helpers *)

Example rsplit_root : PyStr.rsplit PyStr.slash 2 "/demo1/" = [""; "demo1"; ""].
Proof. reflexivity. Qed.

Example rsplit_deep : PyStr.rsplit PyStr.slash 2 "/demo1/a/b" = ["/demo1"; "a"; "b"].
Proof. reflexivity. Qed.

Example split_one : PyStr.split PyStr.slash 1 "demo1/a/b" = ["demo1"; "a/b"].
Proof. reflexivity. Qed.

Example pop_demo :
  Wsgi.pop_path_info {[ "PATH_INFO" := "/demo1/assets/x.js" ]}
  = (Some "demo1", <["SCRIPT_NAME" := "/demo1"]> {[ "PATH_INFO" := "/assets/x.js" ]}).
Proof. vm_compute. reflexivity. Qed.

Example peek_demo : Wsgi.peek_path_info {[ "PATH_INFO" := "//demo1/assets" ]} = Some "demo1".
Proof. reflexivity. Qed.

Example peek_empty : Wsgi.peek_path_info ∅ = Some "".
Proof. reflexivity. Qed.

Section PyStrFacts.
Import PyStr.
Variable sep : ascii.

Lemma chars_of_chars l : chars (of_chars l) = l.
Proof. apply list_ascii_of_string_of_list_ascii. Qed.

Lemma of_chars_chars s : of_chars (chars s) = s.
Proof. apply string_of_list_ascii_of_string. Qed.

Lemma of_chars_empty l : of_chars l = "" ↔ l = [].
Proof.
  split; [|intros ->; reflexivity].
  destruct l; [reflexivity | discriminate].
Qed.

Lemma split_chars_nonempty n l : split_chars sep n l ≠ [].
Proof.
  revert n. induction l as [|a l IH]; intros n; simpl; [discriminate|].
  destruct n; [discriminate|].
  destruct (Ascii.eqb a sep); [discriminate|].
  destruct (split_chars sep (S n) l); discriminate.
Qed.

Lemma split_chars_length n l :
  length (split_chars sep n l) = S (Nat.min n (count_chars sep l)).
Proof.
  revert n. induction l as [|a l IH]; intros n; simpl.
  - now rewrite Nat.min_0_r.
  - destruct n as [|n]; [reflexivity|].
    destruct (Ascii.eqb a sep); simpl.
    + now rewrite IH.
    + specialize (IH (S n)).
      destruct (split_chars sep (S n) l); simpl in *; [discriminate|exact IH].
Qed.

Lemma join_chars_cons p q ps :
  join_chars sep (p :: q :: ps) = p ++ sep :: join_chars sep (q :: ps).
Proof. reflexivity. Qed.

Lemma join_split_chars n l : join_chars sep (split_chars sep n l) = l.
Proof.
  revert n. induction l as [|a l IH]; intros n; simpl; [reflexivity|].
  destruct n as [|n]; [simpl; now rewrite app_nil_r|].
  destruct (Ascii.eqb_spec a sep) as [->|Hne].
  - specialize (IH n). pose proof (split_chars_nonempty n l) as Hn.
    destruct (split_chars sep n l) as [|q ps]; [done|].
    rewrite join_chars_cons, IH. reflexivity.
  - specialize (IH (S n)). pose proof (split_chars_nonempty (S n) l) as Hn.
    destruct (split_chars sep (S n) l) as [|q ps]; [done|].
    simpl in *. now rewrite IH.
Qed.

Lemma join_chars_snoc ps q :
  ps ≠ [] → join_chars sep (ps ++ [q]) = join_chars sep ps ++ sep :: q.
Proof.
  destruct ps as [|p ps]; [done|]. intros _. simpl.
  rewrite fmap_app, concat_app. simpl. now rewrite app_nil_r, app_assoc.
Qed.

Lemma join_chars_rev ps :
  join_chars sep (rev (rev (A:=ascii) <$> ps)) = rev (join_chars sep ps).
Proof.
  induction ps as [|p ps IH]; [reflexivity|].
  destruct ps as [|q ps].
  - simpl. now rewrite !app_nil_r.
  - rewrite join_chars_cons. cbn [fmap list_fmap rev] in *.
    rewrite join_chars_snoc.
    + rewrite IH. rewrite rev_app_distr. simpl. now rewrite <- app_assoc.
    + intros H. apply (f_equal (@length _)) in H. rewrite length_app in H. simpl in H. lia.
Qed.

Lemma count_chars_app l1 l2 :
  count_chars sep (l1 ++ l2) = count_chars sep l1 + count_chars sep l2.
Proof. induction l1 as [|a l1 IH]; simpl; [reflexivity|]. rewrite IH. lia. Qed.

Lemma count_chars_rev l : count_chars sep (rev l) = count_chars sep l.
Proof.
  induction l as [|a l IH]; simpl; [reflexivity|].
  rewrite count_chars_app, IH. simpl. lia.
Qed.

Lemma rsplit_chars_length n l :
  length (rsplit_chars sep n l) = S (Nat.min n (count_chars sep l)).
Proof.
  unfold rsplit_chars. rewrite length_rev, length_fmap, split_chars_length.
  now rewrite count_chars_rev.
Qed.

Lemma join_rsplit_chars n l : join_chars sep (rsplit_chars sep n l) = l.
Proof.
  unfold rsplit_chars. rewrite join_chars_rev, join_split_chars.
  apply rev_involutive.
Qed.

Lemma split_chars_init n l pieces q :
  split_chars sep n l = pieces ++ [q] →
  Forall (λ p, count_chars sep p = 0) pieces.
Proof.
  revert n pieces. induction l as [|a l IH]; intros n pieces; simpl.
  - destruct pieces as [|p [|? ?]]; intros H; simplify_eq/=; constructor.
  - destruct n as [|n].
    { destruct pieces as [|p [|? ?]]; intros H; simplify_eq/=; constructor. }
    destruct (Ascii.eqb a sep) eqn:Ea.
    + destruct pieces as [|p pieces]; intros H; simplify_eq/=.
      { exfalso. eapply split_chars_nonempty; eauto. }
      constructor; [reflexivity|]. eapply IH; eauto.
    + pose proof (split_chars_nonempty (S n) l) as Hn.
      destruct (split_chars sep (S n) l) as [|p rest] eqn:Es; [done|].
      destruct pieces as [|p' pieces]; intros H; simplify_eq/=; [constructor|].
      specialize (IH (S n) (p :: pieces)). rewrite Es in IH.
      specialize (IH eq_refl). inversion IH; subst.
      constructor; [|assumption]. simpl. rewrite Ea. assumption.
Qed.

Lemma fmap_rev_rev (X : list (list ascii)) :
  rev (A:=ascii) <$> (rev (A:=ascii) <$> X) = X.
Proof.
  induction X as [|p X IH]; [reflexivity|].
  now rewrite !fmap_cons, rev_involutive, IH.
Qed.

Lemma rsplit_chars_tail n l first rest :
  rsplit_chars sep n l = first :: rest →
  Forall (λ p, count_chars sep p = 0) rest.
Proof.
  unfold rsplit_chars. intros H.
  apply (f_equal (@rev _)) in H. rewrite rev_involutive in H. simpl in H.
  apply (f_equal (fmap (rev (A:=ascii)))) in H.
  rewrite fmap_rev_rev, fmap_app in H. simpl in H.
  apply split_chars_init in H.
  rewrite Forall_fmap in H. rewrite <- (rev_involutive rest).
  apply Forall_forall. intros p Hp.
  rewrite Forall_forall in H.
  apply list_elem_of_In, in_rev, list_elem_of_In in Hp.
  specialize (H p Hp). simpl in H. now rewrite count_chars_rev in H.
Qed.

Lemma last_rev {A} (X : list A) : last (rev X) = head X.
Proof. destruct X; simpl; [reflexivity|apply last_snoc]. Qed.

Lemma split_chars_head n a l :
  head (split_chars sep (S n) (a :: l)) = Some [] ↔ a = sep.
Proof.
  simpl. destruct (Ascii.eqb_spec a sep) as [->|Hne]; simpl; [tauto|].
  destruct (split_chars sep (S n) l); simpl; split; intros; simplify_eq.
Qed.

Lemma rsplit_chars_last n l :
  last (rsplit_chars sep n l) = rev (A:=ascii) <$> head (split_chars sep n (rev l)).
Proof.
  unfold rsplit_chars. rewrite last_rev.
  destruct (split_chars sep n (rev l)); reflexivity.
Qed.

Lemma endswith_chars s :
  endswith sep s = true ↔ ∃ l, chars s = l ++ [sep].
Proof.
  unfold endswith. split.
  - destruct (rev (chars s)) as [|a r] eqn:E; [discriminate|].
    intros Ha. apply Ascii.eqb_eq in Ha. subst a.
    exists (rev r). apply (f_equal (@rev _)) in E.
    now rewrite rev_involutive in E.
  - intros [l ->]. rewrite rev_app_distr. simpl. apply Ascii.eqb_refl.
Qed.

End PyStrFacts.

Section MainPageShape.
Import PyStr Wsgi Dispatcher.

Lemma rsplit_length n s :
  length (rsplit slash n s) = S (Nat.min n (count slash s)).
Proof. unfold rsplit, count. now rewrite length_fmap, rsplit_chars_length. Qed.

Lemma rsplit_last_empty s :
  (2 ≤ count slash s)%nat →
  (last (rsplit slash 2 s) = Some "" ↔ endswith slash s = true).
Proof.
  unfold rsplit, count, endswith. intros Hc.
  rewrite fmap_last, rsplit_chars_last.
  pose proof (count_chars_rev slash (chars s)) as Hr.
  destruct (rev (chars s)) as [|a r] eqn:E.
  { simpl in Hr. lia. }
  pose proof (split_chars_head slash 1 a r) as Hh.
  destruct (head (split_chars slash 2 (a :: r))) as [p|]; simpl.
  - split.
    + intros H. simplify_eq. apply of_chars_empty in H.
      apply Ascii.eqb_eq, Hh. f_equal.
      destruct p; [reflexivity|]. simpl in H.
      apply app_eq_nil in H. destruct H; discriminate.
    + intros H. apply Ascii.eqb_eq, Hh in H. now simplify_eq.
  - split; [discriminate|].
    intros H. apply Ascii.eqb_eq, Hh in H. discriminate.
Qed.

Lemma is_main_page_slashes environ :
  is_main_page environ = true ↔
    count slash (get_path_info environ) = 1
    ∨ ((2 ≤ count slash (get_path_info environ))%nat
       ∧ endswith slash (get_path_info environ) = true).
Proof.
  unfold is_main_page. set (path := get_path_info environ).
  rewrite orb_true_iff, andb_true_iff, !Nat.eqb_eq, bool_decide_eq_true.
  rewrite rsplit_length.
  split.
  - intros [H|[H1 H2]]; [left; lia|right].
    assert (2 ≤ count slash path)%nat as Hc by lia.
    split; [exact Hc|]. now apply rsplit_last_empty.
  - intros [H|[H1 H2]]; [left; lia|right].
    split; [lia|]. now apply rsplit_last_empty.
Qed.
End MainPageShape.

Section MainPageClaims.
Import PyStr Wsgi Dispatcher.

Lemma chars_fmap_of_chars (L : list (list ascii)) : chars <$> (of_chars <$> L) = L.
Proof.
  induction L as [|p L IH]; [reflexivity|].
  now rewrite !fmap_cons, chars_of_chars, IH.
Qed.

Lemma join_rsplit n s : join slash (rsplit slash n s) = s.
Proof.
  unfold join, rsplit.
  now rewrite chars_fmap_of_chars, join_rsplit_chars, of_chars_chars.
Qed.

Lemma rsplit_tail_no_slash n s :
  Forall (λ p, count slash p = 0) (tail (rsplit slash n s)).
Proof.
  unfold rsplit, count.
  destruct (rsplit_chars slash n (chars s)) as [|first rest] eqn:E; [constructor|].
  rewrite fmap_cons. simpl. apply Forall_fmap.
  apply rsplit_chars_tail in E.
  eapply Forall_impl; [exact E|]. intros p Hp. simpl.
  now rewrite chars_of_chars.
Qed.

(** C6: [__is_main_page] looks at the shape of the path only.  The path is cut
    from the right at its last two slashes at most, which gives one to three
    pieces that joined by slashes are the path again, all but the first free
    of slashes; the page is the main page exactly when there are two pieces,
    or three pieces with an empty last one. *)
Theorem is_main_page_path_shape (environ : gmap string string) :
  let path := get_path_info environ in
  let splitted := rsplit slash 2 path in
  length splitted = S (Nat.min 2 (count slash path))
  ∧ (1 ≤ length splitted ≤ 3)%nat
  ∧ join slash splitted = path
  ∧ Forall (λ p, count slash p = 0) (tail splitted)
  ∧ (is_main_page environ = true ↔
       length splitted = 2 ∨ (length splitted = 3 ∧ last splitted = Some "")).
Proof.
  intros path splitted. subst splitted.
  pose proof (rsplit_length 2 path) as Hlen.
  split; [exact Hlen|]. split; [lia|].
  split; [apply join_rsplit|]. split; [apply rsplit_tail_no_slash|].
  unfold is_main_page. fold path.
  rewrite orb_true_iff, andb_true_iff, !Nat.eqb_eq, bool_decide_eq_true.
  reflexivity.
Qed.

End MainPageClaims.

Section MountRoot.
Import PyStr Wsgi Dispatcher Sample.

Lemma chars_append s1 s2 : chars (s1 +:+ s2) = chars s1 ++ chars s2.
Proof. induction s1 as [|a s1 IH]; simpl; [reflexivity|]. now rewrite IH. Qed.

Lemma count_append c s1 s2 : count c (s1 +:+ s2) = count c s1 + count c s2.
Proof. unfold count. now rewrite chars_append, count_chars_app. Qed.

Lemma get_path_info_env path : get_path_info (env path) = path.
Proof. unfold get_path_info, env. now rewrite lookup_singleton_eq. Qed.

(** On the mount root of a tenant, with or without the trailing slash,
    [__is_main_page] holds. *)
Lemma is_main_page_of_mount_root name :
  count slash name = 0 →
  is_main_page (env ("/" +:+ name)) = true
  ∧ is_main_page (env ("/" +:+ name +:+ "/")) = true.
Proof.
  intros Hn. split; apply is_main_page_slashes; rewrite get_path_info_env.
  - left. rewrite count_append, Hn. reflexivity.
  - right. split.
    + rewrite !count_append, Hn. cbn. lia.
    + apply endswith_chars. exists (chars ("/" +:+ name)).
      now rewrite !chars_append, app_assoc.
Qed.

(** Below the mount root it does not, as long as the path does not end in
    a slash. *)
Lemma is_main_page_below_mount_root name rest :
  rest ≠ "" → endswith slash rest = false →
  is_main_page (env ("/" +:+ name +:+ "/" +:+ rest)) = false.
Proof.
  intros Hrest Hend. apply not_true_is_false. intros Hmain.
  apply is_main_page_slashes in Hmain. rewrite get_path_info_env in Hmain.
  destruct Hmain as [Hone|[_ Hslash]].
  - rewrite !count_append in Hone. cbn in Hone. lia.
  - apply endswith_chars in Hslash. destruct Hslash as [l Hl].
    rewrite !chars_append in Hl.
    assert (endswith slash rest = true) as Habs; [|congruence].
    apply endswith_chars.
    assert (chars rest ≠ []) as Hne by (destruct rest; [done|discriminate]).
    destruct (exists_last Hne) as (cs & c & E). rewrite E in Hl |- *.
    rewrite !app_assoc in Hl.
    apply app_inj_tail in Hl. destruct Hl as [_ ->]. eauto.
Qed.

End MountRoot.

Section DispatchFacts.
Import PyStr Wsgi Dispatcher.

Lemma truthy_true s : truthy s = true ↔ s ≠ "".
Proof.
  unfold truthy. rewrite negb_true_iff.
  destruct (String.eqb_spec s ""); split; intros; congruence.
Qed.

Lemma tenant_request_tests x environ name :
  tenant_request x environ name →
  peek_path_info environ = Some name
  ∧ truthy name = true
  ∧ String.eqb name "api" = false
  ∧ name_pattern x name = true.
Proof.
  intros (Hp & Hne & Hapi & Hpat). repeat split; try assumption.
  - now apply truthy_true.
  - now apply String.eqb_neq.
Qed.

End DispatchFacts.

Ltac unfold_dispatch :=
  unfold Dispatcher.call, Dispatcher.get_application, Dispatcher.get_app_from_db,
    bind, ret, raise, logger, instances_get, instances_set, instances_del,
    datetime_utcnow, mongo_find_one, dashapp_deserializer.

Ltac dispatch_cases :=
  repeat match goal with
         | |- context [match ?e with _ => _ end] =>
             lazymatch e with
             | context [match _ with _ => _ end] => fail
             | _ => destruct e eqn:?; cbn
             end
         end.

Ltac enter_tenant H :=
  let Hp := fresh "Hpeek" in
  let Ht := fresh "Htruthy" in
  let Ha := fresh "Hnotapi" in
  let Hn := fresh "Hpattern" in
  destruct (tenant_request_tests _ _ _ H) as (Hp & Ht & Ha & Hn);
  unfold_dispatch; rewrite Hp, Ht, Ha, Hn; cbn [negb].

Section Expiry.
Import PyStr Wsgi Dispatcher.

(** C4: a tenant cached with [added] = T and a request whose clock reading
    is later than T + P.  The age test follows [__is_main_page], not what is
    left of the path after the tenant segment.  Where that remainder is
    neither empty nor a bare slash and [__is_main_page] holds all the same,
    the entry is discarded: with no stored definition the answer is
    not-found and the entry is gone, with a stored [dashapp] the
    deserializer accepts a new application is built and installed with the
    clock reading taken after the build.  Where the remainder is empty or a
    bare slash and [__is_main_page] does not hold, the cached application
    answers and nothing changes. *)
Theorem expiry_ignores_mount_root x environ w name inst :
  tenant_request x environ name →
  instances w !! name = Some inst →
  (utcnow x (clock_reads w) - added inst > retention_period x)%Z →
  (path_after_tenant environ ≠ "" → path_after_tenant environ ≠ "/" →
   is_main_page environ = true →
   (find_one x (length (queries w)) name = Found None →
    call x environ w
      = (add_query name (evicted name w), Ret (Response NotFoundApp environ))
    ∧ instances (add_query name (evicted name w)) = delete name (instances w))
   ∧ (∀ blob,
        stored_at x (length (queries w)) name blob →
        deserializable x blob = true →
        let server := Handler (builds w) name blob in
        call x environ w
          = (installed x name server (evicted name w),
             Ret (Response (DashApp server) (snd (pop_path_info environ))))
        ∧ instances (installed x name server (evicted name w)) !! name
          = Some (Instance server (utcnow x (S (clock_reads w))))
        ∧ builds (installed x name server (evicted name w)) = S (builds w)))
  ∧ (path_after_tenant environ = "" ∨ path_after_tenant environ = "/" →
     is_main_page environ = false →
     call x environ w
       = (w, Ret (Response (DashApp (app inst)) (snd (pop_path_info environ))))).
Proof.
  intros Hreq Hinst Hexp. apply Z.gt_lt, Z.gtb_lt in Hexp. split.
  - intros _ _ Hmain. split.
    + intros Hfind. enter_tenant Hreq. rewrite Hinst, Hmain, Hexp.
      cbn. rewrite Hfind. split; reflexivity.
    + intros blob (doc & Hfind & Hblob) Hok server.
      assert (doc ≠ ∅) as Hdoc
        by (intros ->; rewrite lookup_empty in Hblob; discriminate).
      enter_tenant Hreq. rewrite Hinst, Hmain, Hexp.
      cbn. rewrite Hfind. cbn.
      rewrite bool_decide_eq_false_2 by assumption.
      rewrite Hblob, Hok. cbn.
      split; [reflexivity|]. split; [apply lookup_insert_eq|reflexivity].
  - intros _ Hmain. enter_tenant Hreq. now rewrite Hinst, Hmain.
Qed.
End Expiry.

Section PopPeek.
Import PyStr Wsgi Dispatcher.

Lemma split_chars_no_sep sep n l :
  existsb (Ascii.eqb sep) l = false → split_chars sep n l = [l].
Proof.
  revert n. induction l as [|a l IH]; intros n; simpl; [reflexivity|].
  rewrite orb_false_iff. intros [Ha Hl].
  destruct n; [reflexivity|].
  rewrite Ascii.eqb_sym, Ha. now rewrite (IH (S n) Hl).
Qed.

Lemma split_chars_one_sep sep l :
  existsb (Ascii.eqb sep) l = true → ∃ a b, split_chars sep 1 l = [a; b].
Proof.
  induction l as [|a l IH]; simpl; [discriminate|].
  rewrite (Ascii.eqb_sym a sep).
  destruct (Ascii.eqb sep a); simpl.
  - intros _. destruct l; simpl; eauto.
  - intros H. destruct (IH H) as (p & q & E).
    simpl in E. rewrite E. eauto.
Qed.

Lemma peek_path_info_total environ : ∃ name, peek_path_info environ = Some name.
Proof.
  unfold peek_path_info, split.
  pose proof (split_chars_nonempty slash 1
    (chars (lstrip slash (default "" (environ !! "PATH_INFO"))))) as Hn.
  destruct (split_chars slash 1 _); [done|]. rewrite fmap_cons. eauto.
Qed.

(** What [peek_path_info] shows is what [pop_path_info] removes. *)
Lemma pop_path_info_peek environ name :
  peek_path_info environ = Some name → name ≠ "" →
  fst (pop_path_info environ) = Some name.
Proof.
  unfold peek_path_info, pop_path_info. intros Hpeek Hname.
  destruct (environ !! "PATH_INFO") as [path|] eqn:Hpath; simpl in Hpeek.
  2:{ vm_compute in Hpeek. congruence. }
  destruct (truthy path) eqn:Ht; simpl.
  2:{ unfold truthy in Ht. apply negb_false_iff, String.eqb_eq in Ht. subst path.
      vm_compute in Hpeek. congruence. }
  unfold contains, split in *.
  destruct (existsb (Ascii.eqb slash) (chars (lstrip slash path))) eqn:Hc; simpl.
  - destruct (split_chars_one_sep _ _ Hc) as (p & q & E).
    rewrite E in *. simpl in *. congruence.
  - rewrite (split_chars_no_sep _ _ _ Hc) in Hpeek. simpl in Hpeek.
    rewrite of_chars_chars in Hpeek. congruence.
Qed.

End PopPeek.

Section Outcomes.
Import PyStr Wsgi Dispatcher.

Lemma empty_segment_not_found x environ w :
  peek_path_info environ = Some "" →
  call x environ w = (w, Ret (Response NotFoundApp environ)).
Proof. intros Hp. unfold_dispatch. now rewrite Hp. Qed.

Lemma rejected_name x environ w name :
  peek_path_info environ = Some name → name ≠ "" → name ≠ "api" →
  name_pattern x name = false →
  call x environ w
    = (add_log InfoNotAllowed w,
       Ret (Response BadRequestApp (snd (pop_path_info environ)))).
Proof.
  intros Hp Hne Hapi Hpat. unfold_dispatch.
  apply truthy_true in Hne. apply String.eqb_neq in Hapi.
  now rewrite Hp, Hne, Hapi, Hpat.
Qed.

Lemma api_request x environ w :
  peek_path_info environ = Some "api" →
  call x environ w
    = (add_log (InfoSpecialDapp "api") w,
       Ret (Response ApiApp (snd (pop_path_info environ)))).
Proof. intros Hp. unfold_dispatch. now rewrite Hp. Qed.

(** C1: when [find_one] raises a PyMongoError for a tenant that has to be
    fetched, the warning is logged and then the read of the unbound local [res]
    raises UnboundLocalError out of [__call__]: no response is produced. *)
Theorem storage_error_escapes x environ w name err :
  tenant_request x environ name →
  instances w !! name = None →
  find_one x (length (queries w)) name = FindRaises err →
  call x environ w
    = (add_log (WarningErr err) (add_query name w), Raise (UnboundLocalError "res")).
Proof.
  intros Hreq Hmiss Hfind. enter_tenant Hreq.
  rewrite Hmiss. cbn. now rewrite Hfind.
Qed.

Lemma get_application_some x environ w w' a :
  get_application x environ w = (w', Ret (Some a)) →
  a ≠ NotFoundApp
  ∧ ∃ name, name ≠ "" ∧ peek_path_info environ = Some name.
Proof.
  unfold_dispatch.
  destruct (peek_path_info environ) as [name|]; [|discriminate].
  destruct (truthy name) eqn:Ht; cbn [negb]; [|discriminate].
  apply truthy_true in Ht.
  intros H. split; [|eauto].
  revert H. dispatch_cases; intros H; simplify_eq; discriminate.
Qed.

(** C2, amended: a NotFound response sees the request as it came; every
    other response, the bad-request one included, sees it after
    [pop_path_info] removed the segment that [peek_path_info] had shown. *)
Theorem segment_consumed_unless_not_found x environ w w' r :
  call x environ w = (w', Ret r) →
  (served_by r = NotFoundApp → seen_environ r = environ)
  ∧ (served_by r ≠ NotFoundApp →
       seen_environ r = snd (pop_path_info environ)
       ∧ ∃ name, name ≠ "" ∧ peek_path_info environ = Some name
                 ∧ fst (pop_path_info environ) = Some name).
Proof.
  unfold call, bind.
  destruct (get_application x environ w) as [w1 [[a|]|e]] eqn:Hga;
    unfold ret; intros Hcall; simplify_eq; simpl.
  - destruct (get_application_some _ _ _ _ _ Hga) as (Ha & name & Hne & Hpeek).
    split; [done|]. intros _. split; [reflexivity|].
    exists name. eauto using pop_path_info_peek.
  - split; [reflexivity|done].
Qed.

End Outcomes.

Section CacheClaims.
Import PyStr Wsgi Dispatcher.

(** C3, amended: a request with an empty segment, or for a valid tenant that
    has no stored definition and no cache entry, gets the not-found response
    and leaves the cache as it was.  With an entry cached for the tenant, a
    request that expires it deletes exactly that entry and gets not-found;
    any other request is served by the cached application, the cache
    unchanged. *)
Theorem absent_tenant_outcome x environ w name :
  peek_path_info environ = Some name →
  name = ""
  ∨ (tenant_request x environ name
     ∧ find_one x (length (queries w)) name = Found None) →
  ∃ w' r,
    call x environ w = (w', Ret r)
    ∧ match (if decide (name = "") then None else instances w !! name) with
      | None =>
          r = Response NotFoundApp environ ∧ instances w' = instances w
      | Some inst =>
          if expires x environ w name
          then r = Response NotFoundApp environ
               ∧ instances w' = delete name (instances w)
          else r = Response (DashApp (app inst)) (snd (pop_path_info environ))
               ∧ instances w' = instances w
      end.
Proof.
  intros Hpeek [->|[Hreq Hfind]].
  - rewrite empty_segment_not_found by assumption.
    eexists _, _. split; [reflexivity|]. now rewrite decide_True.
  - pose proof Hreq as (_ & Hne & _).
    rewrite decide_False by assumption.
    unfold expires. enter_tenant Hreq.
    destruct (instances w !! name) as [inst|] eqn:Hinst.
    + destruct (is_main_page environ); cbn.
      * destruct (utcnow x (clock_reads w) - added inst >? retention_period x)%Z;
          cbn; [rewrite Hfind|]; eexists _, _; (split; [reflexivity|done]).
      * eexists _, _; (split; [reflexivity|done]).
    + cbn. rewrite Hfind. eexists _, _; (split; [reflexivity|done]).
Qed.

(** C8, amended: a non-empty first segment other than [api] that the
    allow-pattern rejects gets the bad-request response; the collection is
    not queried, nothing is built, the clock is not read and the cache is
    untouched.  An empty segment is answered not-found instead, equally
    without touching collection or cache. *)
Theorem rejected_segment_outcome x environ w name :
  peek_path_info environ = Some name →
  name ≠ "api" →
  name_pattern x name = false →
  ∃ w' r,
    call x environ w = (w', Ret r)
    ∧ served_by r = (if decide (name = "") then NotFoundApp else BadRequestApp)
    ∧ instances w' = instances w
    ∧ queries w' = queries w
    ∧ builds w' = builds w
    ∧ clock_reads w' = clock_reads w.
Proof.
  intros Hpeek Hapi Hpat. destruct (decide (name = "")) as [->|Hne].
  - rewrite empty_segment_not_found by assumption. eexists _, _. done.
  - rewrite (rejected_name x environ w name) by assumption. eexists _, _. done.
Qed.

(** Only the entry of the requested name can change. *)
Lemma call_instances_frame x environ w k :
  peek_path_info environ ≠ Some k →
  instances (fst (call x environ w)) !! k = instances w !! k.
Proof.
  intros Hk. unfold_dispatch.
  destruct (peek_path_info environ) as [name|]; [|reflexivity].
  assert (name ≠ k) by congruence.
  dispatch_cases; try reflexivity;
    rewrite ?lookup_insert_ne, ?lookup_delete_ne by assumption; reflexivity.
Qed.

Lemma reachable_without_api w : reachable w → instances w !! "api" = None.
Proof.
  induction 1 as [|x environ w Hw IH]; [reflexivity|].
  destruct (decide (peek_path_info environ = Some "api")) as [Hp|Hp].
  - now rewrite api_request.
  - now rewrite call_instances_frame.
Qed.

(** C7: a request whose first segment is [api] is answered by the fixed API
    application, whatever the allow-pattern says of [api] and whatever the
    cache and the collection hold; only the log grows: the cache is not
    changed, the clock not read, the collection not queried, nothing built.
    And no state a dispatcher can reach has [api] as a key of the cache. *)
Theorem api_bypasses_pattern_and_cache x environ w :
  peek_path_info environ = Some "api" →
  call x environ w
    = (add_log (InfoSpecialDapp "api") w,
       Ret (Response ApiApp (snd (pop_path_info environ))))
  ∧ instances (add_log (InfoSpecialDapp "api") w) = instances w
  ∧ clock_reads (add_log (InfoSpecialDapp "api") w) = clock_reads w
  ∧ queries (add_log (InfoSpecialDapp "api") w) = queries w
  ∧ builds (add_log (InfoSpecialDapp "api") w) = builds w
  ∧ ∀ w0, reachable w0 → instances w0 !! "api" = None.
Proof.
  intros Hp. split; [now apply api_request|].
  repeat (split; [reflexivity|]). apply reachable_without_api.
Qed.

(** Without a build, an entry found in the cache after a request is the
    entry that was there before it. *)
Lemma entry_kept_without_build x environ w k i :
  builds (fst (get_application x environ w)) = builds w →
  instances (fst (get_application x environ w)) !! k = Some i →
  instances w !! k = Some i.
Proof.
  unfold_dispatch. dispatch_cases; intros Hb Hi; try assumption;
    try (exfalso; lia);
    try (apply lookup_delete_Some in Hi; tauto).
Qed.

(** C9: for a valid name that is not cached and whose stored document has a
    [dashapp] the deserializer accepts, the first resolution builds one
    application and installs it with the clock reading taken after the build.
    A second resolution within the retention period, that is with the next
    clock reading at most P after [added], on whatever path, returns that
    same object without a query, a build or a log record, and leaves the
    cache as it was, the entry and its [added] included.  In general an entry that is in the
    cache after a resolution without a build is the entry that was there
    before. *)
Theorem build_once_then_hit x env1 env2 w name doc blob :
  tenant_request x env1 name →
  tenant_request x env2 name →
  instances w !! name = None →
  find_one x (length (queries w)) name = Found (Some doc) →
  doc !! "dashapp" = Some blob →
  deserializable x blob = true →
  (utcnow x (S (clock_reads w)) - utcnow x (clock_reads w) ≤ retention_period x)%Z →
  let server := Handler (builds w) name blob in
  let entry := Instance server (utcnow x (clock_reads w)) in
  ∃ w1 w2,
    get_application x env1 w = (w1, Ret (Some (DashApp server)))
    ∧ builds w1 = S (builds w)
    ∧ instances w1 = <[name := entry]> (instances w)
    ∧ get_application x env2 w1 = (w2, Ret (Some (DashApp server)))
    ∧ instances w2 = instances w1
    ∧ instances w2 !! name = Some entry
    ∧ builds w2 = builds w1
    ∧ queries w2 = queries w1
    ∧ log w2 = log w1
    ∧ ∀ x' environ w0 k i,
        builds (fst (get_application x' environ w0)) = builds w0 →
        instances (fst (get_application x' environ w0)) !! k = Some i →
        instances w0 !! k = Some i.
Proof.
  intros Hreq1 Hreq2 Hmiss Hfind Hblob Hok Hage server entry.
  assert (doc ≠ ∅) as Hdoc by (intros ->; rewrite lookup_empty in Hblob; discriminate).
  assert ((utcnow x (S (clock_reads w)) - utcnow x (clock_reads w)
           >? retention_period x)%Z = false) as Hfresh
    by (rewrite Z.gtb_ltb; apply Z.ltb_ge; assumption).
  exists (installed x name server w),
    (if is_main_page env2 then tick (installed x name server w)
     else installed x name server w).
  unfold installed. split.
  { enter_tenant Hreq1. rewrite Hmiss. cbn. rewrite Hfind. cbn.
    rewrite bool_decide_eq_false_2 by assumption.
    rewrite Hblob, Hok. cbn. reflexivity. }
  split; [reflexivity|]. split; [reflexivity|]. split.
  { enter_tenant Hreq2. cbn. rewrite lookup_insert_eq.
    destruct (is_main_page env2); cbn; [rewrite Hfresh|]; reflexivity. }
  destruct (is_main_page env2); cbn.
  all: split; [reflexivity|]; split; [apply lookup_insert_eq|];
    split; [reflexivity|]; split; [reflexivity|]; split; [reflexivity|].
  all: intros; eapply entry_kept_without_build; eassumption.
Qed.

(** C10: a stored document without a [dashapp] field is handled as no
    document at all: [__get_app_from_db] returns None and builds nothing, the
    whole request goes as it would with a collection that has no document
    for the name, and when the name is not cached the answer is not-found
    with the cache unchanged. *)
Theorem document_without_dashapp_is_absent x environ w name doc :
  tenant_request x environ name →
  find_one x (length (queries w)) name = Found (Some doc) →
  doc !! "dashapp" = None →
  get_app_from_db x name w = (add_query name w, Ret None)
  ∧ (∀ f, f (length (queries w)) name = Found None →
          call (with_find_one x f) environ w = call x environ w)
  ∧ (instances w !! name = None →
     call x environ w = (add_query name w, Ret (Response NotFoundApp environ))
     ∧ instances (add_query name w) = instances w
     ∧ builds (add_query name w) = builds w).
Proof.
  intros Hreq Hfind Hno.
  assert (get_app_from_db x name w = (add_query name w, Ret None)) as Hdb.
  { unfold_dispatch. rewrite Hfind. case_bool_decide; [reflexivity|].
    now rewrite Hno. }
  split; [exact Hdb|]. split.
  - intros f Hf.
    destruct (tenant_request_tests _ _ _ Hreq) as (Hp & Ht & Ha & Hn).
    unfold_dispatch. unfold retention_period, with_find_one.
    cbn [name_pattern retention_period_min find_one utcnow deserializable].
    rewrite Hp, Ht, Ha, Hn. cbn.
    destruct (instances w !! name) as [inst|]; cbn.
    + destruct (is_main_page environ); [|reflexivity].
      destruct (_ >? _)%Z; [|reflexivity]. cbn. rewrite Hf, Hfind.
      case_bool_decide; [reflexivity|]. now rewrite Hno.
    + rewrite Hf, Hfind. case_bool_decide; [reflexivity|]. now rewrite Hno.
  - intros Hmiss. split; [|done].
    enter_tenant Hreq. rewrite Hmiss. cbn. rewrite Hfind.
    case_bool_decide; [reflexivity|]. now rewrite Hno.
Qed.

End CacheClaims.

Section Concrete.
Import PyStr Wsgi Dispatcher Sample.

Lemma demo1_request store step path :
  peek_path_info (env path) = Some "demo1" →
  tenant_request (dispatcher store step) (env path) "demo1".
Proof. intros Hp. repeat split; [exact Hp|discriminate|discriminate]. Qed.

(** With the collection down, the first request for /demo1/ raises. *)
Lemma storage_error_escapes_witness :
  call (dispatcher store_down 0) (env "/demo1/") initial_world
  = (add_log (WarningErr "ServerSelectionTimeoutError")
       (add_query "demo1" initial_world),
     Raise (UnboundLocalError "res")).
Proof.
  apply storage_error_escapes.
  - apply demo1_request. vm_compute. reflexivity.
  - reflexivity.
  - reflexivity.
Defined.

(** C2 as stated fails: the request /a?b/x is rejected, and the bad-request
    responder receives it with PATH_INFO /x, the segment a?b moved to
    SCRIPT_NAME. *)
Lemma rejected_request_loses_segment :
  call (dispatcher store_empty 0) (env "/a?b/x") initial_world
  = (add_log InfoNotAllowed initial_world,
     Ret (Response BadRequestApp (<["SCRIPT_NAME" := "/a?b"]> (env "/x"))))
  ∧ get_path_info (<["SCRIPT_NAME" := "/a?b"]> (env "/x")) = "/x"
  ∧ get_path_info (env "/a?b/x") = "/a?b/x".
Proof. vm_compute. repeat split; reflexivity. Qed.

(** The rejected request /a?b/x, seen by its responder. *)
Lemma segment_consumed_unless_not_found_witness :
  (served_by (Response BadRequestApp (<["SCRIPT_NAME" := "/a?b"]> (env "/x")))
     = NotFoundApp →
   seen_environ (Response BadRequestApp (<["SCRIPT_NAME" := "/a?b"]> (env "/x")))
     = env "/a?b/x")
  ∧ (served_by (Response BadRequestApp (<["SCRIPT_NAME" := "/a?b"]> (env "/x")))
       ≠ NotFoundApp →
     seen_environ (Response BadRequestApp (<["SCRIPT_NAME" := "/a?b"]> (env "/x")))
       = snd (pop_path_info (env "/a?b/x"))
     ∧ ∃ name, name ≠ "" ∧ peek_path_info (env "/a?b/x") = Some name
               ∧ fst (pop_path_info (env "/a?b/x")) = Some name).
Proof.
  apply (segment_consumed_unless_not_found (dispatcher store_empty 0)
           (env "/a?b/x") initial_world (add_log InfoNotAllowed initial_world)).
  vm_compute. reflexivity.
Defined.

(** C3 as stated fails: demo1 is cached and older than the retention period,
    the collection has no document for it any more; the request for /demo1/
    is answered not-found and the cache, which held demo1, is empty after. *)
Lemma expired_entry_deleted_on_not_found :
  find_one (dispatcher store_empty 61) 1 "demo1" = Found None
  ∧ instances w_cached !! "demo1" = Some (Instance demo1_handler 0)
  ∧ (∃ w', call (dispatcher store_empty 61) (env "/demo1/") w_cached
           = (w', Ret (Response NotFoundApp (env "/demo1/")))
           ∧ instances w' = ∅)
  ∧ instances w_cached ≠ ∅.
Proof.
  split; [reflexivity|]. split; [reflexivity|]. split.
  - eexists. split; [vm_compute; reflexivity|]. reflexivity.
  - intros H. apply (f_equal (λ m : gmap string instance, m !! "demo1")) in H.
    vm_compute in H. discriminate.
Qed.

(** The expired demo1 whose document is gone. *)
Lemma absent_tenant_outcome_witness :
  ∃ w' r,
    call (dispatcher store_empty 61) (env "/demo1/") w_cached = (w', Ret r)
    ∧ r = Response NotFoundApp (env "/demo1/")
    ∧ instances w' = delete "demo1" (instances w_cached).
Proof.
  destruct (absent_tenant_outcome (dispatcher store_empty 61) (env "/demo1/")
              w_cached "demo1") as (w' & r & Hcall & Hcase).
  - vm_compute. reflexivity.
  - right. split; [apply demo1_request; vm_compute; reflexivity|reflexivity].
  - exists w', r. split; [exact Hcall|]. exact Hcase.
Defined.

(** demo1 cached at 0 and read at 61 minutes, past the retention period of
    60.  /demo1/assets/ leaves /assets/ after the tenant segment: demo1 is
    discarded and built anew, or discarded and answered not-found when the
    collection has no document.  //demo1 leaves nothing: the cached
    application answers. *)
Lemma expiry_ignores_mount_root_witness :
  path_after_tenant (env "/demo1/assets/") = "/assets/"
  ∧ (call (dispatcher store_demo1 61) (env "/demo1/assets/") w_cached
     = (installed (dispatcher store_demo1 61) "demo1" (Handler 1 "demo1" "BLOB")
          (evicted "demo1" w_cached),
        Ret (Response (DashApp (Handler 1 "demo1" "BLOB"))
               (snd (pop_path_info (env "/demo1/assets/")))))
     ∧ instances (installed (dispatcher store_demo1 61) "demo1"
                    (Handler 1 "demo1" "BLOB") (evicted "demo1" w_cached))
         !! "demo1"
       = Some (Instance (Handler 1 "demo1" "BLOB") (clock 61 2))
     ∧ builds (installed (dispatcher store_demo1 61) "demo1"
                 (Handler 1 "demo1" "BLOB") (evicted "demo1" w_cached)) = 2)
  ∧ (call (dispatcher store_empty 61) (env "/demo1/assets/") w_cached
     = (add_query "demo1" (evicted "demo1" w_cached),
        Ret (Response NotFoundApp (env "/demo1/assets/")))
     ∧ instances (add_query "demo1" (evicted "demo1" w_cached))
       = delete "demo1" (instances w_cached))
  ∧ path_after_tenant (env "//demo1") = ""
  ∧ call (dispatcher store_demo1 61) (env "//demo1") w_cached
    = (w_cached,
       Ret (Response (DashApp demo1_handler) (snd (pop_path_info (env "//demo1"))))).
Proof.
  assert (∀ store path, peek_path_info (env path) = Some "demo1" →
            tenant_request (dispatcher store 61) (env path) "demo1") as Hreq
    by (intros; now apply demo1_request).
  split; [vm_compute; reflexivity|]. split; [|split; [|split]].
  - refine (proj2 (proj1 (expiry_ignores_mount_root (dispatcher store_demo1 61)
                            (env "/demo1/assets/") w_cached "demo1"
                            (Instance demo1_handler 0) _ _ _) _ _ _)
              "BLOB" _ _).
    + apply Hreq. vm_compute. reflexivity.
    + reflexivity.
    + vm_compute. reflexivity.
    + vm_compute. discriminate.
    + vm_compute. discriminate.
    + vm_compute. reflexivity.
    + exists demo1_doc. split; [reflexivity|vm_compute; reflexivity].
    + reflexivity.
  - refine (proj1 (proj1 (expiry_ignores_mount_root (dispatcher store_empty 61)
                            (env "/demo1/assets/") w_cached "demo1"
                            (Instance demo1_handler 0) _ _ _) _ _ _) _).
    + apply Hreq. vm_compute. reflexivity.
    + reflexivity.
    + vm_compute. reflexivity.
    + vm_compute. discriminate.
    + vm_compute. discriminate.
    + vm_compute. reflexivity.
    + reflexivity.
  - vm_compute. reflexivity.
  - refine (proj2 (expiry_ignores_mount_root (dispatcher store_demo1 61)
                     (env "//demo1") w_cached "demo1"
                     (Instance demo1_handler 0) _ _ _) _ _).
    + apply Hreq. vm_compute. reflexivity.
    + reflexivity.
    + vm_compute. reflexivity.
    + left. vm_compute. reflexivity.
    + vm_compute. reflexivity.
Defined.

(** C5: the path /demo1/assets/ leaves /assets/ once the tenant segment is
    removed, yet [__is_main_page] holds of it, and the request discards and
    rebuilds the expired demo1; and //demo1, which leaves the empty path, is
    not a main page. *)
Theorem age_check_fires_below_the_root :
  path_after_tenant (env "/demo1/assets/") = "/assets/"
  ∧ is_main_page (env "/demo1/assets/") = true
  ∧ expires (dispatcher store_demo1 61) (env "/demo1/assets/") w_cached "demo1" = true
  ∧ (∃ w', call (dispatcher store_demo1 61) (env "/demo1/assets/") w_cached
           = (w', Ret (Response (DashApp (Handler 1 "demo1" "BLOB"))
                         (snd (pop_path_info (env "/demo1/assets/")))))
           ∧ instances w'
             = {[ "demo1" := Instance (Handler 1 "demo1" "BLOB") (clock 61 2) ]})
  ∧ path_after_tenant (env "//demo1") = ""
  ∧ is_main_page (env "//demo1") = false.
Proof.
  repeat split; try (vm_compute; reflexivity).
  eexists. split; vm_compute; reflexivity.
Qed.

(** /api/v1/apps under an allow-pattern that rejects every name. *)
Lemma api_bypasses_pattern_and_cache_witness :
  call (Externals (λ _, false) 60 store_demo1 (clock 61) (λ _, true))
    (env "/api/v1/apps") w_cached
  = (add_log (InfoSpecialDapp "api") w_cached,
     Ret (Response ApiApp (snd (pop_path_info (env "/api/v1/apps")))))
  ∧ instances (add_log (InfoSpecialDapp "api") w_cached) = instances w_cached
  ∧ clock_reads (add_log (InfoSpecialDapp "api") w_cached) = clock_reads w_cached
  ∧ queries (add_log (InfoSpecialDapp "api") w_cached) = queries w_cached
  ∧ builds (add_log (InfoSpecialDapp "api") w_cached) = builds w_cached
  ∧ ∀ w0, reachable w0 → instances w0 !! "api" = None.
Proof.
  apply api_bypasses_pattern_and_cache. vm_compute. reflexivity.
Defined.

(** C8 as stated fails: the empty segment does not match the allow-pattern,
    and the request for / is answered not-found, not bad-request. *)
Lemma empty_segment_answered_not_found :
  peek_path_info (env "/") = Some ""
  ∧ default_name_pattern "" = false
  ∧ call (dispatcher store_empty 0) (env "/") initial_world
    = (initial_world, Ret (Response NotFoundApp (env "/"))).
Proof. repeat split; vm_compute; reflexivity. Qed.

(** The segment a?b under the default allow-pattern. *)
Lemma rejected_segment_outcome_witness :
  ∃ w' r,
    call (dispatcher store_demo1 0) (env "/a?b/x") w_cached = (w', Ret r)
    ∧ served_by r = BadRequestApp
    ∧ instances w' = instances w_cached
    ∧ queries w' = queries w_cached
    ∧ builds w' = builds w_cached
    ∧ clock_reads w' = clock_reads w_cached.
Proof.
  apply (rejected_segment_outcome (dispatcher store_demo1 0) (env "/a?b/x")
           w_cached "a?b").
  - vm_compute. reflexivity.
  - discriminate.
  - reflexivity.
Defined.

(** /demo1/ on a fresh dispatcher, then /demo1/assets/ half an hour later:
    below the mount root, the clock is read, demo1 is still young. *)
Lemma build_once_then_hit_witness :
  ∃ w1 w2,
    get_application (dispatcher store_demo1 30) (env "/demo1/") initial_world
      = (w1, Ret (Some (DashApp demo1_handler)))
    ∧ builds w1 = 1
    ∧ instances w1 = <["demo1" := Instance demo1_handler 0]> ∅
    ∧ get_application (dispatcher store_demo1 30) (env "/demo1/assets/") w1
      = (w2, Ret (Some (DashApp demo1_handler)))
    ∧ instances w2 = instances w1
    ∧ instances w2 !! "demo1" = Some (Instance demo1_handler 0)
    ∧ builds w2 = builds w1
    ∧ queries w2 = queries w1
    ∧ log w2 = log w1
    ∧ ∀ x' environ w0 k i,
        builds (fst (get_application x' environ w0)) = builds w0 →
        instances (fst (get_application x' environ w0)) !! k = Some i →
        instances w0 !! k = Some i.
Proof.
  refine (build_once_then_hit (dispatcher store_demo1 30) (env "/demo1/")
            (env "/demo1/assets/") initial_world "demo1" demo1_doc "BLOB"
            _ _ _ _ _ _ _).
  - apply demo1_request. vm_compute. reflexivity.
  - apply demo1_request. vm_compute. reflexivity.
  - reflexivity.
  - reflexivity.
  - vm_compute. reflexivity.
  - reflexivity.
  - vm_compute. discriminate.
Defined.

(** A collection whose documents carry a uid only. *)
Lemma document_without_dashapp_is_absent_witness :
  get_app_from_db (dispatcher store_no_dashapp 0) "demo1" initial_world
    = (add_query "demo1" initial_world, Ret None)
  ∧ (∀ f, f (length (queries initial_world)) "demo1" = Found None →
          call (with_find_one (dispatcher store_no_dashapp 0) f) (env "/demo1/") initial_world
          = call (dispatcher store_no_dashapp 0) (env "/demo1/") initial_world)
  ∧ (instances initial_world !! "demo1" = None →
     call (dispatcher store_no_dashapp 0) (env "/demo1/") initial_world
       = (add_query "demo1" initial_world, Ret (Response NotFoundApp (env "/demo1/")))
     ∧ instances (add_query "demo1" initial_world) = instances initial_world
     ∧ builds (add_query "demo1" initial_world) = builds initial_world).
Proof.
  apply (document_without_dashapp_is_absent (dispatcher store_no_dashapp 0)
           (env "/demo1/") initial_world "demo1" {[ "uid" := "demo1" ]}).
  - apply demo1_request. vm_compute. reflexivity.
  - reflexivity.
  - vm_compute. reflexivity.
Defined.

End Concrete.

(** * Further properties *)

Section RequestSteps.
Import PyStr Wsgi Dispatcher.

(** The three ways through [get_application]. *)
Lemma call_cases x environ w :
  call x environ w = (w, Ret (Response NotFoundApp environ))
  ∨ (∃ l a, call x environ w
            = (add_log l w, Ret (Response a (snd (pop_path_info environ))))
            ∧ (a = ApiApp ∨ a = BadRequestApp))
  ∨ (∃ name, tenant_request x environ name).
Proof.
  destruct (peek_path_info_total environ) as [name Hpeek].
  destruct (decide (name = "")) as [->|Hne].
  { left. now apply empty_segment_not_found. }
  destruct (decide (name = "api")) as [->|Hapi].
  { right. left. eexists _, _. split; [now apply api_request|auto]. }
  destruct (name_pattern x name) eqn:Hpat.
  - right. right. exists name. repeat split; assumption.
  - right. left. eexists _, _. split; [now apply (rejected_name x environ w name)|auto].
Qed.

Lemma tenant_request_unique x environ n1 n2 :
  tenant_request x environ n1 → peek_path_info environ = Some n2 → n1 = n2.
Proof. intros (H1 & _) H2. congruence. Qed.

(** Every way through the cached part of [get_application]. *)
Lemma tenant_call_cases x environ w name :
  tenant_request x environ name →
  let w1 := before_fetch x environ w name in
  let asked := find_one x (length (queries w)) name in
  (∃ i, instances w !! name = Some i ∧ expires x environ w name = false
        ∧ call x environ w
          = (if is_main_page environ then tick w else w,
             Ret (Response (DashApp (app i)) (snd (pop_path_info environ)))))
  ∨ ((instances w !! name = None ∨ expires x environ w name = true)
     ∧ ((∃ err, asked = FindRaises err
                ∧ call x environ w
                  = (add_log (WarningErr err) (add_query name w1),
                     Raise (UnboundLocalError "res")))
        ∨ ((asked = Found None
            ∨ ∃ doc, asked = Found (Some doc) ∧ doc !! "dashapp" = None)
           ∧ call x environ w
             = (add_query name w1, Ret (Response NotFoundApp environ)))
        ∨ (∃ blob, stored_at x (length (queries w)) name blob
                   ∧ deserializable x blob = false
                   ∧ call x environ w
                     = (add_build (add_query name w1),
                        Raise (DeserializeError name)))
        ∨ (∃ blob, stored_at x (length (queries w)) name blob
                   ∧ deserializable x blob = true
                   ∧ call x environ w
                     = (installed x name (Handler (builds w) name blob) w1,
                        Ret (Response (DashApp (Handler (builds w) name blob))
                               (snd (pop_path_info environ))))))).
Proof.
  intros Hreq w1 asked. subst w1 asked.
  unfold before_fetch, expires, stored_at, installed, evicted.
  enter_tenant Hreq.
  assert (∀ doc : gmap string string, doc !! "dashapp" ≠ None → doc ≠ ∅) as Hdoc.
  { intros doc H ->. now rewrite lookup_empty in H. }
  destruct (instances w !! name) as [i|] eqn:Hi; cbn;
    [destruct (is_main_page environ) eqn:Hm; cbn;
      [destruct (_ >? _)%Z eqn:Hg; cbn|]|].
  2,3: left; exists i; auto.
  all: right; (split; [auto|]).
  all: destruct (find_one x (length (queries w)) name) as [[doc|]|err] eqn:Hf; cbn.
  all: try (left; eexists; split; reflexivity).
  all: try (right; left; split; [left; reflexivity|reflexivity]).
  all: case_bool_decide as Hempty; cbn;
    [right; left; split; [right; exists doc; subst doc; split; [reflexivity|apply lookup_empty]|reflexivity]|].
  all: destruct (doc !! "dashapp") as [blob|] eqn:Hblob; cbn;
    [|right; left; split; [right; exists doc; auto|reflexivity]].
  all: destruct (deserializable x blob) eqn:Hok; cbn; right; right; [right|left];
    exists blob; (split; [exists doc; auto|]); auto.
Qed.

End RequestSteps.

Section RequestEffects.
Import PyStr Wsgi Dispatcher.

Lemma instances_before_fetch x environ w name :
  instances w !! name = None ∨ expires x environ w name = true →
  instances (before_fetch x environ w name) = delete name (instances w).
Proof.
  unfold before_fetch, expires. intros [Hn|He].
  - rewrite Hn. cbn. symmetry. now apply delete_id.
  - destruct (instances w !! name); [|discriminate]. now rewrite He.
Qed.

Lemma before_fetch_counts x environ w name :
  queries (before_fetch x environ w name) = queries w
  ∧ builds (before_fetch x environ w name) = builds w
  ∧ (clock_reads w ≤ clock_reads (before_fetch x environ w name) ≤ S (clock_reads w))%nat
  ∧ ∃ l, log (before_fetch x environ w name) = log w ++ l.
Proof.
  unfold before_fetch. destruct (expires x environ w name); cbn.
  - repeat split; try lia. eauto.
  - repeat split; try lia. exists []. now rewrite app_nil_r.
Qed.

(** X1: one request asks the collection at most once, and then for the name
    of the request; builds at most once, and only after asking; reads the
    clock at most twice; and only appends to the log. *)
Theorem request_cost x environ w :
  let w' := fst (call x environ w) in
  (queries w' = queries w
   ∨ ∃ name, tenant_request x environ name ∧ queries w' = queries w ++ [name])
  ∧ (builds w ≤ builds w' ≤ S (builds w))%nat
  ∧ (builds w' = S (builds w) → length (queries w') = S (length (queries w)))
  ∧ (clock_reads w ≤ clock_reads w' ≤ clock_reads w + 2)%nat
  ∧ ∃ l, log w' = log w ++ l.
Proof.
  cbn zeta.
  destruct (call_cases x environ w) as [->|[(l & a & -> & _)|[name Hreq]]]; cbn.
  - repeat split; try lia; auto. exists []. now rewrite app_nil_r.
  - repeat split; try lia; eauto.
  - pose proof (before_fetch_counts x environ w name) as (Hq & Hb & Hc & l0 & Hl).
    destruct (tenant_call_cases x environ w name Hreq)
      as [(i & _ & _ & ->)|[_ [(err & _ & ->)|[(_ & ->)|[(b & _ & _ & ->)|(b & _ & _ & ->)]]]]];
      cbn; rewrite ?Hq, ?Hb, ?Hl, ?length_app; cbn.
    + destruct (is_main_page environ); cbn; repeat split; try lia; auto;
        exists []; now rewrite app_nil_r.
    + repeat split; try lia; eauto. rewrite <- app_assoc. eauto.
    + repeat split; try lia; eauto.
    + repeat split; try lia; eauto.
    + repeat split; try lia; eauto. rewrite <- app_assoc. eauto.
Qed.

Lemma entry_after_request_aux x environ w name w' h e :
  tenant_request x environ name →
  call x environ w = (w', Ret (Response (DashApp h) e)) →
  ∃ i, instances w' !! name = Some i ∧ app i = h.
Proof.
  intros Hreq Hcall.
  destruct (tenant_call_cases x environ w name Hreq)
    as [(i & Hi & _ & E)|[Hgo [(err & _ & E)|[(_ & E)|[(b & _ & _ & E)|(b & _ & _ & E)]]]]];
    rewrite E in Hcall; simplify_eq; cbn.
  - exists i. split; [|reflexivity]. now destruct (is_main_page environ).
  - eexists. split; [apply lookup_insert_eq|reflexivity].
Qed.

(** X2: after a request for a tenant, whatever its outcome, the cache holds
    an entry for the tenant exactly when a tenant application answered, and
    then the entry holds that application; after not-found or an exception
    the tenant has no entry. *)
Theorem entry_after_request x environ w name w' out :
  tenant_request x environ name →
  call x environ w = (w', out) →
  match out with
  | Ret (Response (DashApp h) _) =>
      ∃ i, instances w' !! name = Some i ∧ app i = h
  | _ => instances w' !! name = None
  end.
Proof.
  intros Hreq Hcall.
  destruct (tenant_call_cases x environ w name Hreq)
    as [(i & Hi & _ & E)|[Hgo [(err & _ & E)|[(_ & E)|[(b & _ & _ & E)|(b & _ & _ & E)]]]]];
    rewrite E in Hcall; simplify_eq; cbn.
  - exists i. split; [|reflexivity]. now destruct (is_main_page environ).
  - rewrite instances_before_fetch by assumption. apply lookup_delete_eq.
  - rewrite instances_before_fetch by assumption. apply lookup_delete_eq.
  - rewrite instances_before_fetch by assumption. apply lookup_delete_eq.
  - eexists. split; [apply lookup_insert_eq|reflexivity].
Qed.

(** X3: a request raises only after asking the collection for a tenant, and
    then the tenant has no entry left.  Either the collection raised: the
    warning is the last log record, nothing was built and UnboundLocalError
    comes out; or a stored [dashapp] was refused by the deserializer, whose
    exception comes out after one build. *)
Theorem request_raises x environ w w' e :
  call x environ w = (w', Raise e) →
  ∃ name,
    tenant_request x environ name
    ∧ queries w' = queries w ++ [name]
    ∧ instances w' = delete name (instances w)
    ∧ ((e = UnboundLocalError "res"
        ∧ builds w' = builds w
        ∧ ∃ err, find_one x (length (queries w)) name = FindRaises err
                 ∧ last (log w') = Some (WarningErr err))
       ∨ (e = DeserializeError name
          ∧ builds w' = S (builds w)
          ∧ ∃ blob, stored_at x (length (queries w)) name blob
                    ∧ deserializable x blob = false)).
Proof.
  intros Hcall.
  destruct (call_cases x environ w) as [E|[(l & a & E & _)|[name Hreq]]];
    [rewrite E in Hcall; discriminate..|].
  exists name. split; [assumption|].
  pose proof (before_fetch_counts x environ w name) as (Hq & Hb & _).
  destruct (tenant_call_cases x environ w name Hreq)
    as [(i & Hi & _ & E)|[Hgo [(err & Hf & E)|[(_ & E)|[(b & Hs & Hd & E)|(b & _ & _ & E)]]]]];
    rewrite E in Hcall; simplify_eq; cbn; rewrite Hq, Hb;
    (split; [reflexivity|]);
    (split; [now apply instances_before_fetch|]).
  - left. split; [reflexivity|]. split; [reflexivity|].
    exists err. split; [assumption|]. apply last_snoc.
  - right. eauto.
Qed.

(** X4: an entry of the cache that differs after a request, raised or not,
    is the entry of the tenant the request named. *)
Theorem request_touches_own_entry_only x environ w k :
  instances (fst (call x environ w)) !! k ≠ instances w !! k →
  tenant_request x environ k.
Proof.
  intros Hchg.
  destruct (call_cases x environ w) as [E|[(l & a & E & _)|[name Hreq]]];
    [rewrite E in Hchg; done..|].
  destruct (decide (name = k)) as [<-|Hne]; [assumption|].
  exfalso. apply Hchg. apply call_instances_frame.
  destruct Hreq as (Hp & _). congruence.
Qed.

(** X5: once a tenant application has answered, a next request for the same
    first segment on a path that is not the main page is answered by the
    same application and changes nothing at all. *)
Theorem served_then_hit x env1 env2 w w1 h e1 :
  call x env1 w = (w1, Ret (Response (DashApp h) e1)) →
  peek_path_info env2 = peek_path_info env1 →
  is_main_page env2 = false →
  call x env2 w1
    = (w1, Ret (Response (DashApp h) (snd (pop_path_info env2)))).
Proof.
  intros Hcall Hsame Hsub.
  destruct (call_cases x env1 w) as [E|[(l & a & E & Ha)|[name Hreq]]].
  { rewrite E in Hcall. discriminate. }
  { rewrite E in Hcall. destruct Ha; simplify_eq. }
  pose proof (entry_after_request_aux _ _ _ _ _ _ _ Hreq Hcall) as (i & Hi & <-).
  assert (tenant_request x env2 name) as Hreq2.
  { destruct Hreq as (Hp & ?). split; [congruence|assumption]. }
  assert (expires x env2 w1 name = false) as Hexp.
  { unfold expires. now rewrite Hi, Hsub. }
  destruct (tenant_call_cases x env2 w1 name Hreq2)
    as [(i' & Hi' & _ & E)|[[Hgo|Hgo] _]]; [|congruence..].
  rewrite E, Hsub. congruence.
Qed.

End RequestEffects.

Section ProcessInvariant.
Import PyStr Wsgi Dispatcher.

Lemma split_chars_first_no_sep sep l p rest :
  split_chars sep 1 l = p :: rest → count_chars sep p = 0.
Proof.
  intros E. pose proof (split_chars_length sep 1 l) as Hlen.
  pose proof (join_split_chars sep 1 l) as Hjoin.
  rewrite E in Hlen, Hjoin. cbn in Hlen.
  destruct rest as [|q [|? ?]]; cbn in Hlen.
  - cbn in Hjoin. rewrite app_nil_r in Hjoin. subst p.
    destruct (count_chars sep l); [reflexivity|cbn in Hlen; lia].
  - pose proof (split_chars_init sep 1 l [p] q E) as Hf.
    now inversion Hf.
  - destruct (count_chars sep l) as [|[|?]]; cbn in Hlen; lia.
Qed.

Lemma peek_path_info_no_slash environ name :
  peek_path_info environ = Some name → count slash name = 0.
Proof.
  unfold peek_path_info, split, count.
  destruct (split_chars slash 1 _) as [|p rest] eqn:E; [discriminate|].
  rewrite fmap_cons. intros [= <-]. rewrite chars_of_chars.
  eapply split_chars_first_no_sep; eassumption.
Qed.

Lemma tenant_request_servable x environ name :
  tenant_request x environ name → servable_name x name.
Proof.
  intros (Hp & Hne & Hapi & Hpat). repeat split; try assumption.
  eapply peek_path_info_no_slash; eassumption.
Qed.

Lemma entry_provenance_mono x w w' k i :
  (clock_reads w ≤ clock_reads w')%nat →
  (length (queries w) ≤ length (queries w'))%nat →
  entry_provenance x w k i → entry_provenance x w' k i.
Proof.
  intros Hc Hq (Hu & (n & Hn & Ha) & (q & Hlt & Hs & Hd)).
  split; [assumption|]. split.
  - exists n. split; [lia|assumption].
  - exists q. split; [lia|]. auto.
Qed.

(** Entries carried over from a smaller cache, with counters that grew. *)
Lemma process_invariant_carry x w w' :
  process_invariant x w →
  (∀ k i, instances w' !! k = Some i → instances w !! k = Some i) →
  (clock_reads w ≤ clock_reads w')%nat →
  (builds w ≤ builds w')%nat →
  (builds w' ≤ length (queries w'))%nat →
  (∃ l, queries w' = queries w ++ l ∧ Forall (servable_name x) l) →
  process_invariant x w'.
Proof.
  intros (Hent & Hinj & Hqs & Hb) Hsub Hc Hbs Hbq (l & Hl & Hfl).
  split; [|split; [|split]].
  - intros k i H. apply Hsub in H. destruct (Hent k i H) as (Hs & Hp & Hid).
    split; [assumption|]. split; [|lia].
    apply (entry_provenance_mono x w); [assumption|rewrite Hl, length_app; lia|assumption].
  - intros k1 k2 i1 i2 H1 H2. apply (Hinj k1 k2 i1 i2); auto.
  - rewrite Hl. apply Forall_app. auto.
  - assumption.
Qed.

Lemma process_invariant_step x environ w :
  process_invariant x w → process_invariant x (fst (call x environ w)).
Proof.
  intros Hinv.
  destruct (call_cases x environ w) as [->|[(l & a & -> & _)|[name Hreq]]]; cbn.
  - assumption.
  - apply (process_invariant_carry x w); cbn; auto; try apply Hinv.
    exists []. split; [now rewrite app_nil_r|constructor].
  - pose proof (tenant_request_servable _ _ _ Hreq) as Hname.
    pose proof (before_fetch_counts x environ w name) as (Hq & Hb & Hc & _).
    pose proof Hinv as (Hent & Hinj & Hqs & Hbq).
    assert (∀ k i, delete name (instances w) !! k = Some i → instances w !! k = Some i)
      as Hdel by (intros k i H; apply lookup_delete_Some in H; tauto).
    destruct (tenant_call_cases x environ w name Hreq)
      as [(i & Hi & _ & ->)|[Hgo [(err & _ & ->)|[(_ & ->)|[(b & _ & _ & ->)|(b & Hs & Hd & ->)]]]]];
      cbn.
    + destruct (is_main_page environ);
        apply (process_invariant_carry x w); cbn; auto;
        exists []; (split; [now rewrite app_nil_r|constructor]).
    + apply (process_invariant_carry x w); cbn;
        rewrite ?instances_before_fetch, ?Hq, ?Hb, ?length_app by assumption;
        cbn; auto; try lia.
      exists [name]. split; [reflexivity|]. now constructor.
    + apply (process_invariant_carry x w); cbn;
        rewrite ?instances_before_fetch, ?Hq, ?Hb, ?length_app by assumption;
        cbn; auto; try lia.
      exists [name]. split; [reflexivity|]. now constructor.
    + apply (process_invariant_carry x w); cbn;
        rewrite ?instances_before_fetch, ?Hq, ?Hb, ?length_app by assumption;
        cbn; auto; try lia.
      exists [name]. split; [reflexivity|]. now constructor.
    + unfold process_invariant, entry_provenance. cbn.
      rewrite instances_before_fetch, Hq, Hb, !length_app by assumption. cbn.
      rewrite insert_delete_eq.
      split; [|split; [|split]].
      * intros k i H. destruct (decide (k = name)) as [->|Hne].
        -- rewrite lookup_insert_eq in H. simplify_eq. cbn.
           split; [assumption|]. split; [|lia].
           split; [reflexivity|]. split.
           ++ eexists. split; [|reflexivity]. lia.
           ++ exists (length (queries w)). split; [lia|]. auto.
        -- rewrite lookup_insert_ne in H by congruence.
           destruct (Hent k i H) as (Hs' & Hp & Hid).
           split; [assumption|]. split; [|lia].
           destruct Hp as (Hu & (n & Hn & Ha) & (q & Hlt & Hst & Hds)).
           split; [assumption|]. split.
           ++ exists n. split; [lia|assumption].
           ++ exists q. split; [lia|auto].
      * intros k1 k2 i1 i2 H1 H2 Hid.
        destruct (decide (k1 = name)) as [->|Hn1];
          destruct (decide (k2 = name)) as [->|Hn2]; [reflexivity|..].
        -- rewrite lookup_insert_eq in H1. rewrite lookup_insert_ne in H2 by congruence.
           simplify_eq. cbn in Hid. apply Hent in H2 as (_ & _ & H2). lia.
        -- rewrite lookup_insert_eq in H2. rewrite lookup_insert_ne in H1 by congruence.
           simplify_eq. cbn in Hid. apply Hent in H1 as (_ & _ & H1). lia.
        -- rewrite lookup_insert_ne in H1, H2 by congruence. eauto.
      * apply Forall_app. split; [assumption|now constructor].
      * lia.
Qed.

Lemma reachable_with_invariant x w : reachable_with x w → process_invariant x w.
Proof.
  induction 1 as [|environ w Hw IH].
  - split; [|split; [|split]]; cbn; auto.
    + intros k i H. now rewrite lookup_empty in H.
    + intros k1 k2 i1 i2 H. now rewrite lookup_empty in H.
  - now apply process_invariant_step.
Qed.

End ProcessInvariant.

Section ProcessProperties.
Import PyStr Wsgi Dispatcher Sample.

(** X6: in every state of a process, each key of the cache is a non-empty
    name without a slash, other than [api], that the allow-pattern accepts. *)
Theorem cached_names_servable x w k i :
  reachable_with x w → instances w !! k = Some i → servable_name x k.
Proof.
  intros Hw Hk. apply reachable_with_invariant in Hw as (Hent & _).
  now apply (Hent k i).
Qed.

(** X7: in every state of a process, a cached application was built for
    its key from a [dashapp] that an earlier query for that key returned
    and the deserializer accepted, and [added] is an earlier clock reading. *)
Theorem cached_entry_provenance x w k i :
  reachable_with x w → instances w !! k = Some i → entry_provenance x w k i.
Proof.
  intros Hw Hk. apply reachable_with_invariant in Hw as (Hent & _).
  now apply (Hent k i).
Qed.

(** X8: in every state of a process, no two tenants share an application
    object, and every cached object is older than the next one built. *)
Theorem cached_applications_distinct x w k1 i1 :
  reachable_with x w → instances w !! k1 = Some i1 →
  h_id (app i1) < builds w
  ∧ ∀ k2 i2, instances w !! k2 = Some i2 →
             h_id (app i1) = h_id (app i2) → k1 = k2.
Proof.
  intros Hw Hk. apply reachable_with_invariant in Hw as (Hent & Hinj & _).
  split; [now apply (Hent k1 i1)|]. intros k2 i2. now apply Hinj.
Qed.

(** X9: a process asks the collection for servable names only, never for
    [api], the empty name or a rejected name, and has built no more often
    than it has asked. *)
Theorem store_asked_for_servable_names x w :
  reachable_with x w →
  Forall (servable_name x) (queries w) ∧ (builds w ≤ length (queries w))%nat.
Proof.
  intros Hw. now apply reachable_with_invariant in Hw as (_ & _ & Hq & Hb).
Qed.

Lemma reachable_after_demo1 :
  reachable_with (dispatcher store_demo1 61)
    (fst (call (dispatcher store_demo1 61) (env "/demo1/") initial_world)).
Proof. apply reachable_with_call, reachable_with_init. Qed.

(** The state after the first request for /demo1/. *)
Lemma cached_names_servable_witness :
  servable_name (dispatcher store_demo1 61) "demo1".
Proof.
  apply (cached_names_servable (dispatcher store_demo1 61)
           (fst (call (dispatcher store_demo1 61) (env "/demo1/") initial_world))
           "demo1" (Instance demo1_handler 0)).
  - apply reachable_after_demo1.
  - vm_compute. reflexivity.
Defined.

(** The entry of demo1 after its first request. *)
Lemma cached_entry_provenance_witness :
  entry_provenance (dispatcher store_demo1 61)
    (fst (call (dispatcher store_demo1 61) (env "/demo1/") initial_world))
    "demo1" (Instance demo1_handler 0).
Proof.
  apply (cached_entry_provenance (dispatcher store_demo1 61)).
  - apply reachable_after_demo1.
  - vm_compute. reflexivity.
Defined.

(** The application of demo1 after its first request. *)
Lemma cached_applications_distinct_witness :
  h_id (app (Instance demo1_handler 0))
    < builds (fst (call (dispatcher store_demo1 61) (env "/demo1/") initial_world))
  ∧ ∀ k2 i2,
      instances (fst (call (dispatcher store_demo1 61) (env "/demo1/") initial_world))
        !! k2 = Some i2 →
      h_id (app (Instance demo1_handler 0)) = h_id (app i2) → "demo1" = k2.
Proof.
  apply (cached_applications_distinct (dispatcher store_demo1 61)
           (fst (call (dispatcher store_demo1 61) (env "/demo1/") initial_world))
           "demo1" (Instance demo1_handler 0)).
  - apply reachable_after_demo1.
  - vm_compute. reflexivity.
Defined.

(** The queries after the first request for /demo1/. *)
Lemma store_asked_for_servable_names_witness :
  Forall (servable_name (dispatcher store_demo1 61))
    (queries (fst (call (dispatcher store_demo1 61) (env "/demo1/") initial_world)))
  ∧ (builds (fst (call (dispatcher store_demo1 61) (env "/demo1/") initial_world))
     ≤ length (queries (fst (call (dispatcher store_demo1 61) (env "/demo1/") initial_world))))%nat.
Proof.
  apply store_asked_for_servable_names, reachable_after_demo1.
Defined.

End ProcessProperties.

Section ForwardedPath.
Import PyStr Wsgi Dispatcher Sample.

Lemma chars_inj s1 s2 : chars s1 = chars s2 → s1 = s2.
Proof. intros H. rewrite <- (of_chars_chars s1), <- (of_chars_chars s2). now f_equal. Qed.

Lemma string_length_chars s : String.length s = length (chars s).
Proof. induction s as [|a s IH]; simpl; [reflexivity|]. now rewrite IH. Qed.

Lemma append_empty_r s : s +:+ "" = s.
Proof. apply chars_inj. rewrite chars_append. apply app_nil_r. Qed.

Lemma append_assoc_chars s1 s2 s3 : (s1 +:+ s2) +:+ s3 = s1 +:+ (s2 +:+ s3).
Proof. apply chars_inj. rewrite !chars_append. now rewrite app_assoc. Qed.

Lemma lstrip_chars_length c l : (length (lstrip_chars c l) ≤ length l)%nat.
Proof.
  induction l as [|a l IH]; simpl; [lia|].
  destruct (Ascii.eqb a c); simpl; lia.
Qed.

Lemma lstrip_chars_split c l :
  l = repeat c (length l - length (lstrip_chars c l)) ++ lstrip_chars c l.
Proof.
  induction l as [|a l IH]; simpl; [reflexivity|].
  destruct (Ascii.eqb_spec a c) as [->|Hne].
  - pose proof (lstrip_chars_length c l).
    replace (S (length l) - length (lstrip_chars c l))%nat
      with (S (length l - length (lstrip_chars c l))) by lia.
    simpl. now rewrite <- IH.
  - simpl. now rewrite Nat.sub_diag.
Qed.

Lemma lstrip_split path :
  path = repeat_char slash (String.length path - String.length (lstrip slash path))
         +:+ lstrip slash path.
Proof.
  apply chars_inj. unfold repeat_char, lstrip.
  rewrite chars_append, !string_length_chars, !chars_of_chars.
  apply lstrip_chars_split.
Qed.

(** What [pop_path_info] does to a request with a first segment. *)
Lemma pop_path_info_shape environ name :
  peek_path_info environ = Some name → name ≠ "" →
  ∃ k rest,
    get_path_info environ = repeat_char slash k +:+ name +:+ rest
    ∧ (rest = "" ∨ ∃ r, rest = "/" +:+ r)
    ∧ snd (pop_path_info environ)
      = <["SCRIPT_NAME" :=
            (default "" (environ !! "SCRIPT_NAME") +:+ repeat_char slash k) +:+ name]>
          (<["PATH_INFO" := rest]> environ).
Proof.
  unfold peek_path_info, pop_path_info, get_path_info. intros Hpeek Hname.
  destruct (environ !! "PATH_INFO") as [path|] eqn:Hpath; simpl in Hpeek |- *.
  2:{ vm_compute in Hpeek. congruence. }
  destruct (truthy path) eqn:Ht; simpl.
  2:{ unfold truthy in Ht. apply negb_false_iff, String.eqb_eq in Ht. subst path.
      vm_compute in Hpeek. congruence. }
  set (stripped := lstrip slash path) in *.
  set (k := (String.length path - String.length stripped)%nat).
  assert ((if negb (stripped =? path)
           then default "" (environ !! "SCRIPT_NAME") +:+ repeat_char slash k
           else default "" (environ !! "SCRIPT_NAME"))
          = default "" (environ !! "SCRIPT_NAME") +:+ repeat_char slash k) as ->.
  { destruct (String.eqb_spec stripped path) as [E|_]; simpl; [|reflexivity].
    subst k. rewrite E, Nat.sub_diag. symmetry. apply append_empty_r. }
  pose proof (lstrip_split path) as Hsplit. fold stripped k in Hsplit.
  unfold contains, split in *.
  destruct (existsb (Ascii.eqb slash) (chars stripped)) eqn:Hc; simpl.
  - destruct (split_chars_one_sep _ _ Hc) as (p & q & E).
    pose proof (join_split_chars slash 1 (chars stripped)) as Hjoin.
    rewrite E in *. simpl in *. simplify_eq.
    exists k, ("/" +:+ of_chars q). split; [|split; [eauto|reflexivity]].
    rewrite Hsplit at 1. f_equal.
    apply chars_inj. rewrite <- Hjoin, !chars_append, !chars_of_chars, app_nil_r.
    reflexivity.
  - rewrite (split_chars_no_sep _ _ _ Hc) in Hpeek. simpl in Hpeek.
    rewrite of_chars_chars in Hpeek. simplify_eq.
    exists k, "". split; [|split; [auto|reflexivity]].
    rewrite append_empty_r. exact Hsplit.
Qed.

Lemma response_environ x environ w w' r :
  call x environ w = (w', Ret r) →
  (served_by r = NotFoundApp ∧ seen_environ r = environ)
  ∨ (served_by r ≠ NotFoundApp
     ∧ seen_environ r = snd (pop_path_info environ)
     ∧ ∃ name, name ≠ "" ∧ peek_path_info environ = Some name).
Proof.
  unfold call, bind.
  destruct (get_application x environ w) as [w1 [[a|]|e]] eqn:Hga;
    unfold ret; intros Hcall; simplify_eq; simpl.
  - destruct (get_application_some _ _ _ _ _ Hga) as (Ha & name & Hne & Hpeek).
    right. eauto.
  - left. auto.
Qed.

(** X10: an application other than the not-found one receives the request
    with the leading slashes and exactly the first segment of the stored
    PATH_INFO moved to the end of SCRIPT_NAME: the segment is not empty and
    has no slash, and what is left as PATH_INFO is empty or starts at the
    next slash, however many segments follow. *)
Theorem forward_strips_one_segment x environ w w' r :
  call x environ w = (w', Ret r) →
  served_by r ≠ NotFoundApp →
  ∃ seg k rest,
    seg ≠ "" ∧ count slash seg = 0
    ∧ environ !! "PATH_INFO" = Some (repeat_char slash k +:+ seg +:+ rest)
    ∧ (rest = "" ∨ ∃ r', rest = "/" +:+ r')
    ∧ seen_environ r !! "PATH_INFO" = Some rest
    ∧ seen_environ r !! "SCRIPT_NAME"
      = Some ((default "" (environ !! "SCRIPT_NAME") +:+ repeat_char slash k) +:+ seg).
Proof.
  intros Hcall Hnf.
  destruct (response_environ _ _ _ _ _ Hcall) as [[? _]|(_ & Hseen & name & Hne & Hpeek)];
    [done|].
  destruct (pop_path_info_shape environ name Hpeek Hne) as (k & rest & Hpath & Hrest & Hpop).
  exists name, k, rest. rewrite Hseen, Hpop.
  split; [assumption|]. split; [eapply peek_path_info_no_slash; eassumption|].
  split; [|split; [assumption|split]].
  - unfold get_path_info in Hpath.
    destruct (environ !! "PATH_INFO") as [path|] eqn:E; [simpl in Hpath; congruence|].
    unfold peek_path_info in Hpeek. rewrite E in Hpeek. vm_compute in Hpeek. congruence.
  - rewrite lookup_insert_ne by discriminate. apply lookup_insert_eq.
  - apply lookup_insert_eq.
Qed.

(** X11: whatever answers, SCRIPT_NAME followed by PATH_INFO reads the same
    as in the request, and no other key of the environ is changed. *)
Theorem forward_preserves_full_path x environ w w' r :
  call x environ w = (w', Ret r) →
  full_path (seen_environ r) = full_path environ
  ∧ ∀ key, key ≠ "PATH_INFO" → key ≠ "SCRIPT_NAME" →
           seen_environ r !! key = environ !! key.
Proof.
  intros Hcall.
  destruct (response_environ _ _ _ _ _ Hcall) as [[_ ->]|(_ & Hseen & name & Hne & Hpeek)];
    [auto|].
  destruct (pop_path_info_shape environ name Hpeek Hne) as (k & rest & Hpath & Hrest & Hpop).
  rewrite Hseen, Hpop. split.
  - unfold full_path, get_path_info in *.
    rewrite lookup_insert_eq, lookup_insert_ne, lookup_insert_eq by discriminate.
    simpl. rewrite Hpath. now rewrite !append_assoc_chars.
  - intros key H1 H2. now rewrite !lookup_insert_ne by congruence.
Qed.

(** //demo1/assets/x.js served from the cache. *)
Lemma forward_strips_one_segment_witness :
  ∃ seg k rest,
    seg ≠ "" ∧ count slash seg = 0
    ∧ env "//demo1/assets/x.js" !! "PATH_INFO"
      = Some (repeat_char slash k +:+ seg +:+ rest)
    ∧ (rest = "" ∨ ∃ r', rest = "/" +:+ r')
    ∧ <["SCRIPT_NAME" := "//demo1"]> (env "/assets/x.js") !! "PATH_INFO" = Some rest
    ∧ <["SCRIPT_NAME" := "//demo1"]> (env "/assets/x.js") !! "SCRIPT_NAME"
      = Some ((default "" (env "//demo1/assets/x.js" !! "SCRIPT_NAME")
               +:+ repeat_char slash k) +:+ seg).
Proof.
  refine (forward_strips_one_segment (dispatcher store_demo1 61)
            (env "//demo1/assets/x.js") w_cached w_cached
            (Response (DashApp demo1_handler)
               (<["SCRIPT_NAME" := "//demo1"]> (env "/assets/x.js"))) _ _).
  - vm_compute. reflexivity.
  - discriminate.
Defined.

(** The same request, for its full path. *)
Lemma forward_preserves_full_path_witness :
  full_path (<["SCRIPT_NAME" := "//demo1"]> (env "/assets/x.js"))
    = full_path (env "//demo1/assets/x.js")
  ∧ ∀ key, key ≠ "PATH_INFO" → key ≠ "SCRIPT_NAME" →
           <["SCRIPT_NAME" := "//demo1"]> (env "/assets/x.js") !! key
           = env "//demo1/assets/x.js" !! key.
Proof.
  refine (forward_preserves_full_path (dispatcher store_demo1 61)
            (env "//demo1/assets/x.js") w_cached w_cached
            (Response (DashApp demo1_handler)
               (<["SCRIPT_NAME" := "//demo1"]> (env "/assets/x.js"))) _).
  vm_compute. reflexivity.
Defined.

End ForwardedPath.

Section MainPageFacts.
Import PyStr Wsgi Dispatcher Sample.

(** X12: [__is_main_page] holds exactly of the paths with one slash, and of
    the paths with two or more slashes that end in one. *)
Theorem main_page_iff_slash_count environ :
  is_main_page environ = true ↔
    count slash (get_path_info environ) = 1
    ∨ ((2 ≤ count slash (get_path_info environ))%nat
       ∧ endswith slash (get_path_info environ) = true).
Proof. apply is_main_page_slashes. Qed.

(** X13: for a name without a slash, /name and /name/ are main pages; a
    path below /name/ is one exactly when it ends in a slash. *)
Theorem main_page_around_mount_root name :
  count slash name = 0 →
  is_main_page (env ("/" +:+ name)) = true
  ∧ is_main_page (env ("/" +:+ name +:+ "/")) = true
  ∧ (∀ rest, rest ≠ "" → endswith slash rest = false →
             is_main_page (env ("/" +:+ name +:+ "/" +:+ rest)) = false)
  ∧ (∀ rest, is_main_page (env ("/" +:+ name +:+ "/" +:+ rest +:+ "/")) = true).
Proof.
  intros Hn.
  destruct (is_main_page_of_mount_root name Hn) as [H1 H2].
  split; [exact H1|]. split; [exact H2|]. split.
  - intros rest. apply is_main_page_below_mount_root.
  - intros rest. apply is_main_page_slashes. rewrite get_path_info_env. right. split.
    + rewrite !count_append. cbn. lia.
    + apply endswith_chars.
      exists (chars ("/" +:+ name +:+ "/" +:+ rest)).
      rewrite !chars_append. now rewrite <- !app_assoc.
Qed.

(** The mount root of demo1. *)
Lemma main_page_around_mount_root_witness :
  is_main_page (env ("/" +:+ "demo1")) = true
  ∧ is_main_page (env ("/" +:+ "demo1" +:+ "/")) = true
  ∧ (∀ rest, rest ≠ "" → endswith slash rest = false →
             is_main_page (env ("/" +:+ "demo1" +:+ "/" +:+ rest)) = false)
  ∧ (∀ rest, is_main_page (env ("/" +:+ "demo1" +:+ "/" +:+ rest +:+ "/")) = true).
Proof. apply main_page_around_mount_root. reflexivity. Defined.

End MainPageFacts.

Section DefaultPattern.
Import PyStr Wsgi Dispatcher Sample.

Lemma match_class_plus_end_spec seen l :
  match_class_plus_end seen l = true ↔
    ∃ w, Forall (λ a, in_class a = true) w
         ∧ (l = w ∨ l = w ++ [ascii_of_nat 10])
         ∧ (seen = true ∨ w ≠ []).
Proof.
  revert seen. induction l as [|a l IH]; intros seen; simpl.
  - split.
    + intros ->. exists []. auto.
    + intros (w & _ & [<-|E] & [H|H]); try done.
      all: destruct w; discriminate.
  - destruct (in_class a) eqn:Ha.
    + rewrite IH. split.
      * intros (w & Hw & Hl & _). exists (a :: w). split; [now constructor|].
        split; [|right; discriminate]. destruct Hl as [->| ->]; auto.
      * intros (w & Hw & Hl & _). destruct w as [|b w].
        { destruct Hl as [E|E]; [discriminate|]. simpl in E.
          injection E as -> _. vm_compute in Ha. discriminate. }
        inversion Hw; subst. exists w. split; [assumption|].
        split; [|auto]. destruct Hl as [E|E]; simpl in E; simplify_eq; auto.
    + rewrite !andb_true_iff, Nat.eqb_eq. split.
      * intros [[-> Hn] Hl]. destruct l; [|discriminate].
        exists []. split; [constructor|]. split; [|auto]. right. simpl.
        rewrite <- Hn. now rewrite ascii_nat_embedding.
      * intros (w & Hw & Hl & Hs). destruct w as [|b w].
        { destruct Hl as [E|E]; [discriminate|]. simpl in E.
          injection E as -> ->. destruct Hs; [|done]. auto. }
        inversion Hw; subst.
        destruct Hl as [E|E]; simpl in E; simplify_eq; congruence.
Qed.

(** X14: the default allow-pattern accepts exactly the non-empty words over
    letters, digits, underscore and hyphen, and those words followed by one
    newline. *)
Theorem default_name_pattern_accepts name :
  default_name_pattern name = true ↔
    ∃ w, w ≠ [] ∧ Forall (λ a, in_class a = true) w
         ∧ (chars name = w ∨ chars name = w ++ [ascii_of_nat 10]).
Proof.
  unfold default_name_pattern. rewrite match_class_plus_end_spec. split.
  - intros (w & Hw & Hl & [?|Hne]); [discriminate|]. eauto.
  - intros (w & Hne & Hw & Hl). eauto.
Qed.

End DefaultPattern.

Section LayoutLookup.
Import PyStr Wsgi Dispatcher Sample.

(** X15: [__get_app_layout_from_db] asks the collection once and touches
    neither cache nor clock nor builds anything; it returns None in exactly
    the cases in which [__get_app_from_db] does, and like it raises
    UnboundLocalError exactly when the collection raised. *)
Theorem layout_lookup_mirrors_app_lookup x get_attr uid w :
  let layout := get_app_layout_from_db x get_attr uid w in
  let fetched := get_app_from_db x uid w in
  instances (fst layout) = instances w
  ∧ builds (fst layout) = builds w
  ∧ clock_reads (fst layout) = clock_reads w
  ∧ queries (fst layout) = queries w ++ [uid]
  ∧ queries (fst fetched) = queries (fst layout)
  ∧ log (fst fetched) = log (fst layout)
  ∧ (snd layout = Ret None ↔ snd fetched = Ret None)
  ∧ (snd layout = Raise (UnboundLocalError "res")
     ↔ snd fetched = Raise (UnboundLocalError "res"))
  ∧ (snd layout = Raise (UnboundLocalError "res")
     ↔ ∃ err, find_one x (length (queries w)) uid = FindRaises err).
Proof.
  cbn zeta. unfold get_app_layout_from_db. unfold_dispatch.
  destruct (find_one x (length (queries w)) uid) as [[doc|]|err]; cbn.
  - case_bool_decide; cbn.
    { repeat split; try done. intros (? & ?). discriminate. }
    destruct (doc !! "dashapp") as [blob|]; cbn.
    + destruct (get_attr blob "layout"), (deserializable x blob); cbn;
        repeat split; try done; intros (? & ?); discriminate.
    + repeat split; try done. intros (? & ?). discriminate.
  - repeat split; try done. intros (? & ?). discriminate.
  - repeat split; try done. eauto.
Qed.

End LayoutLookup.

Section RequestEffectsConcrete.
Import PyStr Wsgi Dispatcher Sample.

(** The first request for /demo1/ leaves demo1 cached with the application
    that answered. *)
Lemma entry_after_request_witness :
  ∃ i, instances w_cached !! "demo1" = Some i ∧ app i = demo1_handler.
Proof.
  refine (entry_after_request (dispatcher store_demo1 61) (env "/demo1/")
            initial_world "demo1" w_cached
            (Ret (Response (DashApp demo1_handler)
                    (snd (pop_path_info (env "/demo1/"))))) _ _).
  - apply demo1_request. vm_compute. reflexivity.
  - vm_compute. reflexivity.
Defined.

(** The refresh of the expired demo1 against a collection that is down. *)
Lemma request_raises_witness :
  ∃ name,
    tenant_request (dispatcher store_down 61) (env "/demo1/") name
    ∧ instances (add_log (WarningErr "ServerSelectionTimeoutError")
                   (add_query "demo1" (evicted "demo1" w_cached)))
      = delete name (instances w_cached).
Proof.
  destruct (request_raises (dispatcher store_down 61) (env "/demo1/") w_cached
              (add_log (WarningErr "ServerSelectionTimeoutError")
                 (add_query "demo1" (evicted "demo1" w_cached)))
              (UnboundLocalError "res"))
    as (name & Hreq & _ & Hinst & _).
  - vm_compute. reflexivity.
  - exists name. split; assumption.
Defined.

(** The first request for /demo1/ changes the entry of demo1. *)
Lemma request_touches_own_entry_only_witness :
  tenant_request (dispatcher store_demo1 61) (env "/demo1/") "demo1".
Proof.
  apply (request_touches_own_entry_only (dispatcher store_demo1 61)
           (env "/demo1/") initial_world "demo1").
  vm_compute. discriminate.
Defined.

(** /demo1/ on a fresh dispatcher, then /demo1/assets/x.js. *)
Lemma served_then_hit_witness :
  call (dispatcher store_demo1 61) (env "/demo1/assets/x.js") w_cached
  = (w_cached,
     Ret (Response (DashApp demo1_handler)
            (snd (pop_path_info (env "/demo1/assets/x.js"))))).
Proof.
  refine (served_then_hit (dispatcher store_demo1 61) (env "/demo1/")
            (env "/demo1/assets/x.js") initial_world w_cached demo1_handler
            (snd (pop_path_info (env "/demo1/"))) _ _ _).
  - vm_compute. reflexivity.
  - vm_compute. reflexivity.
  - vm_compute. reflexivity.
Defined.

End RequestEffectsConcrete.
